(** * A shallow embedding of the textured-triangle rasterizer

    The Go package [rasterizer] (file [rasterizer/rasterizer.go]) offers two
    functions: [NewDefaultShader], which builds the per-pixel callback that
    samples a texture, and [Rasterize], the scanline conversion of one
    triangle.  This file embeds both, together with the helper [multiSwap],
    and states the properties of the specification as theorems.

    Conventions of the embedding:
    - a Go [int] is a [Z] kept inside the 64-bit two's complement range, as
      on a 64-bit platform; [Int.add] and [Int.sub] write the wrap-around
      out;
    - a Go [float32] is a [spec_float] computed with the IEEE 754 operations
      of the standard library at precision 24 and maximal exponent 128;
    - the pixel shader returns nothing and cannot influence the control flow
      of [Rasterize], so a call of [Rasterize] is described by the list of
      shader invocations it makes, grouped by scanline;
    - the two [for] loops over [y] and the loop over [x] are bounded by a
      [fuel] argument, and the end of a run says whether the loop was left
      regularly. *)

From Stdlib Require Import ZArith List Bool Lia Permutation Sorted.
From Stdlib Require Import Floats.SpecFloat.
Import ListNotations.

Local Open Scope Z_scope.

(** ** Go [int]: 64-bit two's complement *)

Module Int.

Definition min_int : Z := - 2 ^ 63.
Definition max_int : Z := 2 ^ 63 - 1.

Definition in_range (z : Z) : Prop := min_int <= z <= max_int.

(** Reduction of a mathematical integer to its 64-bit representative. *)
Definition wrap (z : Z) : Z := (z + 2 ^ 63) mod 2 ^ 64 - 2 ^ 63.

Definition add (a b : Z) : Z := wrap (a + b).
Definition sub (a b : Z) : Z := wrap (a - b).

(** [x++] *)
Definition incr (a : Z) : Z := add a 1.

End Int.

(** ** Go [float32]: IEEE 754 binary32 *)

Module F32.

Definition prec : Z := 24.
Definition emax : Z := 128.

Definition float32 : Type := spec_float.

Definition zero : float32 := S754_zero false.

Definition add (a b : float32) : float32 := SFadd prec emax a b.
Definition sub (a b : float32) : float32 := SFsub prec emax a b.
Definition mul (a b : float32) : float32 := SFmul prec emax a b.
Definition div (a b : float32) : float32 := SFdiv prec emax a b.

(** [a < b] and [a != b] on floats; a NaN is unordered, so [a != b] holds
    as soon as one side is a NaN. *)
Definition ltb (a b : float32) : bool := SFltb a b.
Definition neb (a b : float32) : bool := negb (SFeqb a b).

(** The value [m * 2^e] rounded to the nearest float32, ties to even. *)
Definition lit (m e : Z) : float32 := binary_normalize prec emax m e false.

(** The conversion [float32(n)] of an integer. *)
Definition of_int (n : Z) : float32 := lit n 0.

(** What the conversion [int(f)] answers when [f] is a NaN, an infinity or
    a number outside the range of [int].  The language leaves that result
    to the implementation; on amd64 the conversion instruction answers
    the most negative integer. *)
Definition int_indefinite : Z := Int.min_int.

(** The integral part of a finite float, rounded toward zero. *)
Definition trunc (s : bool) (m : positive) (e : Z) : Z :=
  cond_Zopp s (match e with
               | Zneg p => Zpos m / 2 ^ Zpos p
               | _ => Zpos m * 2 ^ e
               end).

(** The conversion [int(f)]. *)
Definition to_int (f : float32) : Z :=
  match f with
  | S754_zero _ => 0
  | S754_finite s m e =>
      let t := trunc s m e in
      if (Int.min_int <=? t) && (t <=? Int.max_int) then t
      else int_indefinite
  | _ => int_indefinite
  end.

(** A float is a zero when it is [+0] or [-0]. *)
Definition is_zero (f : float32) : bool :=
  match f with
  | S754_zero _ => true
  | _ => false
  end.

(** The mantissa of a float32 has at most 24 bits.  Every float that an
    arithmetic operation or a conversion produces is of this kind. *)
Definition wf (f : float32) : Prop :=
  match f with
  | S754_finite _ m _ => Zpos m < 2 ^ prec
  | _ => True
  end.

End F32.

Abbreviation float32 := F32.float32.

(** ** Results of running code that may stop early

    A loop either runs to its end, or the fuel of the model runs out, or
    it executes a division whose divisor is a zero.  A float division by
    zero does not trap in Go; the embedding flags it so that the absence of
    such divisions can be stated. *)

Inductive fault : Type :=
| OutOfFuel
| DivByZero.

Inductive ending (A : Type) : Type :=
| Finished (a : A)
| Stopped (why : fault).

Arguments Finished {A} a.
Arguments Stopped {A} why.

(** A division that reports a zero divisor. *)
Definition checked_div (a b : float32) : ending float32 :=
  if F32.is_zero b then Stopped DivByZero else Finished (F32.div a b).

(** ** The default shader *)

(** [image.Image], read only through [Bounds().Max] and [At]. *)
Class Image (T Color : Type) : Type := {
  BoundsMax : T -> Z * Z;
  At : T -> Z -> Z -> Color
}.

(** [draw.Image], written only through [Set]. *)
Class DrawImage (T Color : Type) : Type := {
  Set_ : T -> Z -> Z -> Color -> T
}.

(** The two branches [if t > max { t = max } else if t < 0 { t = 0 }]. *)
Definition clamp (t max : Z) : Z :=
  if max <? t then max
  else if t <? 0 then 0
  else t.

Section DefaultShader.

Context {Tex Img Color : Type} `{Image Tex Color} `{DrawImage Img Color}.

Definition maxX (texture : Tex) : Z := Int.sub (fst (BoundsMax texture)) 1.
Definition maxY (texture : Tex) : Z := Int.sub (snd (BoundsMax texture)) 1.

(** The texel the closure reads for the coordinates [(u, v)]. *)
Definition texel (mx my : Z) (u v : float32) : Z * Z :=
  let tx := F32.to_int (F32.mul u (F32.of_int mx)) in
  let ty := F32.to_int (F32.mul v (F32.of_int my)) in
  (clamp tx mx, clamp ty my).

(** The closure returned by [NewDefaultShader(target, texture)], as the
    change it makes to the target. *)
Definition NewDefaultShader (texture : Tex) (x y : Z) (u v : float32)
    (target : Img) : Img :=
  let '(tx, ty) := texel (maxX texture) (maxY texture) u v in
  Set_ target x y (At texture tx ty).

End DefaultShader.

(** ** The working variables of [Rasterize] *)

(** The twelve parameters of [Rasterize], which [multiSwap] reorders in
    place through pointers. *)
Record verts : Type := Verts {
  x0 : Z; y0 : Z; x1 : Z; y1 : Z; x2 : Z; y2 : Z;
  u0 : float32; v0 : float32; u1 : float32; v1 : float32;
  u2 : float32; v2 : float32
}.

Definition swapInt (a b : Z) : Z * Z := (b, a).
Definition swapFloat32 (a b : float32) : float32 * float32 := (b, a).

(** [if *y1 < *y0 { ... }]: vertex 1 and vertex 0 exchange their four
    fields, one [swap] call per field. *)
Definition swap10 (t : verts) : verts :=
  if y1 t <? y0 t then
    let '(y1', y0') := swapInt (y1 t) (y0 t) in
    let '(x1', x0') := swapInt (x1 t) (x0 t) in
    let '(u1', u0') := swapFloat32 (u1 t) (u0 t) in
    let '(v1', v0') := swapFloat32 (v1 t) (v0 t) in
    Verts x0' y0' x1' y1' (x2 t) (y2 t) u0' v0' u1' v1' (u2 t) (v2 t)
  else t.

(** [if *y2 < *y0 { ... }] *)
Definition swap20 (t : verts) : verts :=
  if y2 t <? y0 t then
    let '(y2', y0') := swapInt (y2 t) (y0 t) in
    let '(x2', x0') := swapInt (x2 t) (x0 t) in
    let '(u2', u0') := swapFloat32 (u2 t) (u0 t) in
    let '(v2', v0') := swapFloat32 (v2 t) (v0 t) in
    Verts x0' y0' (x1 t) (y1 t) x2' y2' u0' v0' (u1 t) (v1 t) u2' v2'
  else t.

(** [if *y1 < *y2 { ... }] *)
Definition swap21 (t : verts) : verts :=
  if y1 t <? y2 t then
    let '(y2', y1') := swapInt (y2 t) (y1 t) in
    let '(x2', x1') := swapInt (x2 t) (x1 t) in
    let '(u2', u1') := swapFloat32 (u2 t) (u1 t) in
    let '(v2', v1') := swapFloat32 (v2 t) (v1 t) in
    Verts (x0 t) (y0 t) x1' y1' x2' y2' (u0 t) (v0 t) u1' v1' u2' v2'
  else t.

Definition multiSwap (t : verts) : verts := swap21 (swap20 (swap10 t)).

(** The attributes of one vertex, read off the working variables. *)
Definition quad : Type := (Z * Z * float32 * float32)%type.

Definition vertex0 (t : verts) : quad := (x0 t, y0 t, u0 t, v0 t).
Definition vertex1 (t : verts) : quad := (x1 t, y1 t, u1 t, v1 t).
Definition vertex2 (t : verts) : quad := (x2 t, y2 t, u2 t, v2 t).

(** ** Edge gradients *)

(** The rates of change of [x], [u] and [v] along one edge. *)
Record edge : Type := Edge {
  dxdy : float32; dxdu : float32; dxdv : float32
}.

Definition bind {A B : Type} (m : ending A) (k : A -> ending B) : ending B :=
  match m with
  | Finished a => k a
  | Stopped w => Stopped w
  end.

Notation "x <- m ;; k" := (bind m (fun x => k))
  (at level 61, m at next level, right associativity).

(** The three statements [dx /= d; du /= d; dv /= d]. *)
Definition div_edge (g : edge) (d : float32) : ending edge :=
  a <- checked_div (dxdy g) d ;;
  b <- checked_div (dxdu g) d ;;
  c <- checked_div (dxdv g) d ;;
  Finished (Edge a b c).

(** [if dy != 0 { dx /= float32(dy); du /= float32(dy); dv /= float32(dy) }]
    for the integer height [dy] of an edge. *)
Definition guarded_div_edge (g : edge) (dy : Z) : ending edge :=
  if negb (dy =? 0) then div_edge g (F32.of_int dy) else Finished g.

(** The gradient [dxdy1, dxdu1, dxdv1] from vertex 0 to vertex 2 before the
    division. *)
Definition raw_edge1 (t : verts) : edge :=
  Edge (F32.of_int (Int.sub (x2 t) (x0 t)))
       (F32.sub (u2 t) (u0 t))
       (F32.sub (v2 t) (v0 t)).

(** The gradient [dxdy2, dxdu2, dxdv2] from vertex 0 to vertex 1 before the
    division; the source computes [dxdu2 := u1 - v0]. *)
Definition raw_edge2 (t : verts) : edge :=
  Edge (F32.of_int (Int.sub (x1 t) (x0 t)))
       (F32.sub (u1 t) (v0 t))
       (F32.sub (v1 t) (v0 t)).

(** The gradient from vertex 2 to vertex 1 before the division, as both
    branches of the bottom-half setup compute it. *)
Definition raw_edge21 (t : verts) : edge :=
  Edge (F32.of_int (Int.sub (x1 t) (x2 t)))
       (F32.sub (u1 t) (u2 t))
       (F32.sub (v1 t) (v2 t)).

Definition edge1 (t : verts) : ending edge :=
  guarded_div_edge (raw_edge1 t) (Int.sub (y2 t) (y0 t)).

Definition edge2 (t : verts) : ending edge :=
  guarded_div_edge (raw_edge2 t) (Int.sub (y1 t) (y0 t)).

Definition edge21 (t : verts) : ending edge :=
  guarded_div_edge (raw_edge21 t) (Int.sub (y1 t) (y2 t)).

(** ** Scanline state *)

(** The gradients of the left and of the right end of the span. *)
Record slopes : Type := Slopes {
  dxldy : float32; dxrdy : float32;
  dxldu : float32; dxrdu : float32;
  dxldv : float32; dxrdv : float32
}.

(** The running start and end of the span. *)
Record span : Type := Span {
  sdx : float32; sdu : float32; sdv : float32;
  edx : float32; edu : float32; edv : float32
}.

(** [if dxdy1 < dxdy2 { ... } else { ... }] *)
Definition classify (e1 e2 : edge) : slopes :=
  if F32.ltb (dxdy e1) (dxdy e2) then
    {| dxldy := dxdy e1; dxrdy := dxdy e2;
       dxldu := dxdu e1; dxrdu := dxdu e2;
       dxldv := dxdv e1; dxrdv := dxdv e2 |}
  else
    {| dxldy := dxdy e2; dxrdy := dxdy e1;
       dxldu := dxdu e2; dxrdu := dxdu e1;
       dxldv := dxdv e2; dxrdv := dxdv e1 |}.

(** Both ends of the span start at vertex 0. *)
Definition initial_span (t : verts) : span :=
  {| sdx := F32.of_int (x0 t); sdu := u0 t; sdv := v0 t;
     edx := F32.of_int (x0 t); edu := u0 t; edv := v0 t |}.

(** The six additions that close one scanline. *)
Definition advance (g : slopes) (s : span) : span :=
  {| sdx := F32.add (sdx s) (dxldy g);
     sdu := F32.add (sdu s) (dxldu g);
     sdv := F32.add (sdv s) (dxldv g);
     edx := F32.add (edx s) (dxrdy g);
     edu := F32.add (edu s) (dxrdu g);
     edv := F32.add (edv s) (dxrdv g) |}.

(** [pDeltaU] and [pDeltaV] of a scanline. *)
Definition pixel_deltas (s : span) : ending (float32 * float32) :=
  let pDeltaU := F32.sub (edu s) (sdu s) in
  let pDeltaV := F32.sub (edv s) (sdv s) in
  if F32.neb (F32.sub (edx s) (sdx s)) F32.zero then
    du <- checked_div pDeltaU (F32.sub (edx s) (sdx s)) ;;
    dv <- checked_div pDeltaV (F32.sub (edx s) (sdx s)) ;;
    Finished (du, dv)
  else Finished (pDeltaU, pDeltaV).

(** ** Shader invocations *)

(** One call [ps(x, y, u, v)]. *)
Record invocation : Type := Call {
  px : Z; py : Z; pu : float32; pv : float32
}.

(** [for x := ...; x <= int(edx); x++ { ps(x, y, pu, pv); pu += pDeltaU;
    pv += pDeltaV }], started at [x].  The values of [pu] and [pv] after
    the loop are overwritten before they are read again. *)
Fixpoint xloop (fuel : nat) (y x : Z) (edx_ : float32)
    (pu_ pv_ pDeltaU pDeltaV : float32) : list invocation * ending unit :=
  match fuel with
  | O => ([], Stopped OutOfFuel)
  | S k =>
      if x <=? F32.to_int edx_ then
        let '(row, e) :=
          xloop k y (Int.incr x) edx_
                (F32.add pu_ pDeltaU) (F32.add pv_ pDeltaV) pDeltaU pDeltaV in
        (Call x y pu_ pv_ :: row, e)
      else ([], Finished tt)
  end.

(** The body of a scanline loop up to the end of its [x] loop. *)
Definition scanline (xfuel : nat) (y : Z) (s : span)
    : list invocation * ending unit :=
  match pixel_deltas s with
  | Stopped w => ([], Stopped w)
  | Finished (pDeltaU, pDeltaV) =>
      xloop xfuel y (F32.to_int (sdx s)) (edx s) (sdu s) (sdv s)
            pDeltaU pDeltaV
  end.

(** [for y := ...; y <= hi; y++ { ... }], started at [y]: the rows of
    invocations, one per iteration begun, and the span after the loop. *)
Fixpoint yloop (xfuel fuel : nat) (y hi : Z) (g : slopes) (s : span)
    : list (list invocation) * ending span :=
  match fuel with
  | O => ([], Stopped OutOfFuel)
  | S k =>
      if y <=? hi then
        match scanline xfuel y s with
        | (row, Stopped w) => ([row], Stopped w)
        | (row, Finished _) =>
            let '(rows, e) := yloop xfuel k (Int.incr y) hi g (advance g s) in
            (row :: rows, e)
        end
      else ([], Finished s)
  end.

(** ** The bottom half *)

(** The second [if dxdy1 < dxdy2 { ... } else { ... }], which prepares the
    gradients and the span for the bottom half. *)
Definition bottom_setup (t : verts) (e1 e2 : edge) (g : slopes) (s : span)
    : ending (slopes * span) :=
  e <- edge21 t ;;
  if F32.ltb (dxdy e1) (dxdy e2) then
    Finished
      ({| dxldy := dxdy e; dxrdy := dxrdy g;
          dxldu := dxdu e; dxrdu := dxrdu g;
          dxldv := dxdv e; dxrdv := dxrdv g |},
       {| sdx := F32.of_int (x2 t); sdu := u2 t; sdv := v2 t;
          edx := edx s; edu := edu s; edv := edv s |})
  else
    Finished
      ({| dxldy := dxldy g; dxrdy := dxdy e;
          dxldu := dxldu g; dxrdu := dxdu e;
          dxldv := dxldv g; dxrdv := dxdv e |},
       {| sdx := sdx s; sdu := sdu s; sdv := sdv s;
          edx := F32.of_int (x2 t); edu := u2 t; edv := v2 t |}).

(** ** [Rasterize] *)

(** What a call does: the rows of the top-half loop, the rows of the
    bottom-half loop, and how the call ended. *)
Record run : Type := Run {
  top_rows : list (list invocation);
  bottom_rows : list (list invocation);
  outcome : ending unit
}.

(** All shader invocations of a run, in the order they are made. *)
Definition trace (r : run) : list invocation :=
  concat (top_rows r) ++ concat (bottom_rows r).

(** The body of [Rasterize] after the call of [multiSwap]. *)
Definition rasterize_sorted (fuel : nat) (t : verts) : run :=
  match edge1 t with
  | Stopped w => Run [] [] (Stopped w)
  | Finished e1 =>
  match edge2 t with
  | Stopped w => Run [] [] (Stopped w)
  | Finished e2 =>
      let g := classify e1 e2 in
      match yloop fuel fuel (y0 t) (y2 t) g (initial_span t) with
      | (rows, Stopped w) => Run rows [] (Stopped w)
      | (rows, Finished s) =>
          match bottom_setup t e1 e2 g s with
          | Stopped w => Run rows [] (Stopped w)
          | Finished (g', s') =>
              match yloop fuel fuel (y2 t) (y1 t) g' s' with
              | (rows', Stopped w) => Run rows rows' (Stopped w)
              | (rows', Finished _) => Run rows rows' (Finished tt)
              end
          end
      end
  end
  end.

Definition Rasterize (fuel : nat) (t : verts) : run :=
  rasterize_sorted fuel (multiSwap t).

(** ** Notions used to state the properties *)

(** The gradient of an edge of integer height [dy] after the guarded
    division: divided when [dy] is not zero, raw otherwise. *)
Definition over (g : edge) (dy : Z) : edge :=
  if dy =? 0 then g
  else Edge (F32.div (dxdy g) (F32.of_int dy))
            (F32.div (dxdu g) (F32.of_int dy))
            (F32.div (dxdv g) (F32.of_int dy)).

(** [pDeltaU] and [pDeltaV] of a scanline, without the fault report. *)
Definition deltas (s : span) : float32 * float32 :=
  let w := F32.sub (edx s) (sdx s) in
  if F32.neb w F32.zero then
    (F32.div (F32.sub (edu s) (sdu s)) w, F32.div (F32.sub (edv s) (sdv s)) w)
  else (F32.sub (edu s) (sdu s), F32.sub (edv s) (sdv s)).

Definition wf_span (s : span) : Prop := F32.wf (sdx s) /\ F32.wf (edx s).
Definition wf_slopes (g : slopes) : Prop :=
  F32.wf (dxldy g) /\ F32.wf (dxrdy g).

(** The [y] coordinates of a triangle lie in the range of [int] and below
    its largest value. *)
Definition y_below_max (y : Z) : Prop := Int.min_int <= y < Int.max_int.
Definition ys_below_max (t : verts) : Prop :=
  y_below_max (y0 t) /\ y_below_max (y1 t) /\ y_below_max (y2 t).

(** The two ends of a span. *)
Inductive side : Type := Left | Right.

Definition other (sd : side) : side :=
  match sd with
  | Left => Right
  | Right => Left
  end.

Definition slope_of (sd : side) (g : slopes) : edge :=
  match sd with
  | Left => Edge (dxldy g) (dxldu g) (dxldv g)
  | Right => Edge (dxrdy g) (dxrdu g) (dxrdv g)
  end.

Definition end_of (sd : side) (s : span) : float32 * float32 * float32 :=
  match sd with
  | Left => (sdx s, sdu s, sdv s)
  | Right => (edx s, edu s, edv s)
  end.

(** The side that [classify] gives to the edge from vertex 0 to vertex 2. *)
Definition side_of_edge1 (e1 e2 : edge) : side :=
  if F32.ltb (dxdy e1) (dxdy e2) then Left else Right.

(** The six orders in which a caller can pass the same three vertices. *)
Inductive order : Type := O012 | O021 | O102 | O120 | O201 | O210.

Definition permute (o : order) (t : verts) : verts :=
  match o with
  | O012 => t
  | O021 => Verts (x0 t) (y0 t) (x2 t) (y2 t) (x1 t) (y1 t)
                  (u0 t) (v0 t) (u2 t) (v2 t) (u1 t) (v1 t)
  | O102 => Verts (x1 t) (y1 t) (x0 t) (y0 t) (x2 t) (y2 t)
                  (u1 t) (v1 t) (u0 t) (v0 t) (u2 t) (v2 t)
  | O120 => Verts (x1 t) (y1 t) (x2 t) (y2 t) (x0 t) (y0 t)
                  (u1 t) (v1 t) (u2 t) (v2 t) (u0 t) (v0 t)
  | O201 => Verts (x2 t) (y2 t) (x0 t) (y0 t) (x1 t) (y1 t)
                  (u2 t) (v2 t) (u0 t) (v0 t) (u1 t) (v1 t)
  | O210 => Verts (x2 t) (y2 t) (x1 t) (y1 t) (x0 t) (y0 t)
                  (u2 t) (v2 t) (u1 t) (v1 t) (u0 t) (v0 t)
  end.

(** How often a run invokes the shader at the pixel [(x, y)]. *)
Definition at_pixel (x y : Z) (c : invocation) : bool :=
  (px c =? x) && (py c =? y).

Definition visits (r : run) (x y : Z) : nat :=
  length (filter (at_pixel x y) (trace r)).

(** Twice the signed area of the triangle [a b c]. *)
Definition cross (ax ay bx by_ cx cy : Z) : Z :=
  (bx - ax) * (cy - ay) - (by_ - ay) * (cx - ax).

(** The point [(qx / k, qy / k)] lies strictly inside the triangle of [t]:
    the three edge functions are non-zero and have one sign. *)
Definition inside_scaled (k : Z) (t : verts) (qx qy : Z) : bool :=
  let a := cross (k * x0 t) (k * y0 t) (k * x1 t) (k * y1 t) qx qy in
  let b := cross (k * x1 t) (k * y1 t) (k * x2 t) (k * y2 t) qx qy in
  let c := cross (k * x2 t) (k * y2 t) (k * x0 t) (k * y0 t) qx qy in
  ((0 <? a) && (0 <? b) && (0 <? c)) || ((a <? 0) && (b <? 0) && (c <? 0)).

(** The centre of the pixel [(x, y)] lies strictly inside the triangle,
    whether the centre is taken at [(x, y)] or at [(x + 1/2, y + 1/2)]. *)
Definition strictly_inside (t : verts) (x y : Z) : bool :=
  inside_scaled 1 t x y && inside_scaled 2 t (2 * x + 1) (2 * y + 1).

(** The triangle has positive area. *)
Definition positive_area (t : verts) : bool :=
  negb (cross (x0 t) (y0 t) (x1 t) (y1 t) (x2 t) (y2 t) =? 0).

(** A triangle with integer texture coordinates, for the examples. *)
Definition triangle (ax ay bx by_ cx cy ua va ub vb uc vc : Z) : verts :=
  Verts ax ay bx by_ cx cy
        (F32.of_int ua) (F32.of_int va) (F32.of_int ub) (F32.of_int vb)
        (F32.of_int uc) (F32.of_int vc).

(** An image kept as a function from coordinates to colours, to have an
    instance of the two interfaces at hand. *)
Record grid (C : Type) : Type := Grid {
  grid_max : Z * Z;
  grid_at : Z -> Z -> C
}.

Arguments Grid {C} grid_max grid_at.
Arguments grid_max {C} g.
Arguments grid_at {C} g x y.

#[export] Instance grid_Image (C : Type) : Image (grid C) C := {
  BoundsMax := grid_max;
  At := grid_at
}.

#[export] Instance grid_DrawImage (C : Type) : DrawImage (grid C) C := {
  Set_ := fun g x y c =>
    Grid (grid_max g)
         (fun a b => if (a =? x) && (b =? y) then c else grid_at g a b)
}.

(** Inputs of the examples. *)

(** Vertex 0 at [(0,0)] with [u = 0, v = 1]; vertex 1 at [(0,2)] with
    [u = 1, v = 0]; vertex 2 at [(1,1)] with [u = 0, v = 0]. *)
Definition skew_uv_triangle : verts := triangle 0 0 0 2 1 1 0 1 1 0 0 0.

(** The triangle [(0,0) (16,8) (16,4)]. *)
Definition wedge_triangle : verts := triangle 0 0 16 8 16 4 0 0 1 0 0 1.

(** The right triangle [(0,0) (4,0) (0,4)] with a flat top. *)
Definition flat_top_triangle : verts := triangle 0 0 4 0 0 4 0 0 1 0 0 1.

(** The triangle [(0,0) (4,2) (0,1)]. *)
Definition sliver_triangle : verts := triangle 0 0 4 2 0 1 0 0 1 0 0 1.

(** Two runs invoke the shader at the same set of pixels. *)
Definition same_pixels (r1 r2 : run) : Prop :=
  forall x y, visits r1 x y = 0%nat <-> visits r2 x y = 0%nat.

(** A 4 x 4 texture whose colour at [(x, y)] is the pair [(x, y)], and a
    target whose pixels are all unset. *)
Definition texture4 : grid (Z * Z) := Grid (4, 4) (fun x y => (x, y)).
Definition blank : grid (option (Z * Z)) := Grid (8, 8) (fun _ _ => None).

#[export] Instance texture4_Image : Image (grid (Z * Z)) (option (Z * Z)) := {
  BoundsMax := grid_max;
  At := fun g x y => Some (grid_at g x y)
}.

(** The right triangle [(0,0) (0,4) (4,4)] with a flat bottom. *)
Definition flat_bottom_triangle : verts := triangle 0 0 0 4 4 4 0 0 1 0 0 1.

(** Three times the point [(0, 2^63 - 1)]. *)
Definition max_int_point : verts :=
  triangle 0 Int.max_int 0 Int.max_int 0 Int.max_int 0 0 0 0 0 0.

(** Three times the point [(2^24 + 1, 0)]. *)
Definition wide_point : verts :=
  triangle 16777217 0 16777217 0 16777217 0 0 0 0 0 0 0.

(** ** Notions used to state further properties *)

(** The order in which a scanline loop makes its invocations: by rows, and
    from left to right within a row. *)
Definition before (c d : invocation) : Prop :=
  py c < py d \/ (py c = py d /\ px c < px d).



(** A triangle whose three vertices lie on one pixel. *)
Definition point_triangle (x y : Z) (a0 b0 a1 b1 a2 b2 : float32) : verts :=
  Verts x y x y x y a0 b0 a1 b1 a2 b2.


(** The rows lie on the consecutive scanlines [y], [y + 1], ... *)
Fixpoint rows_from (y : Z) (rows : list (list invocation)) : Prop :=
  match rows with
  | [] => True
  | row :: rest => Forall (fun c => py c = y) row /\ rows_from (y + 1) rest
  end.

(** The triangle, an invocation and a run moved down by [k] scanlines. *)
Definition shift_y (k : Z) (t : verts) : verts :=
  Verts (x0 t) (y0 t + k) (x1 t) (y1 t + k) (x2 t) (y2 t + k)
        (u0 t) (v0 t) (u1 t) (v1 t) (u2 t) (v2 t).

Definition shift_call (k : Z) (c : invocation) : invocation :=
  Call (px c) (py c + k) (pu c) (pv c).

Definition shift_run (k : Z) (r : run) : run :=
  Run (map (map (shift_call k)) (top_rows r))
      (map (map (shift_call k)) (bottom_rows r))
      (outcome r).

(** The pixel of an invocation, and what a run does when the texture
    coordinates it passes are left out. *)
Definition pixel (c : invocation) : Z * Z := (px c, py c).

Definition pixels_of_run (r : run)
    : list (list (Z * Z)) * list (list (Z * Z)) * ending unit :=
  (map (map pixel) (top_rows r), map (map pixel) (bottom_rows r), outcome r).

(** The screen coordinates of the three vertices. *)
Definition geometry (t : verts) : Z * Z * Z * Z * Z * Z :=
  (x0 t, y0 t, x1 t, y1 t, x2 t, y2 t).

(** Two gradient sets, or two spans, agree in their [x] components. *)
Definition same_x_slopes (g g' : slopes) : Prop :=
  dxldy g = dxldy g' /\ dxrdy g = dxrdy g'.

Definition same_x_span (s s' : span) : Prop :=
  sdx s = sdx s' /\ edx s = edx s'.

(** A float is a number or an infinity, and not a zero. *)
Definition proper_divisor (f : float32) : bool :=
  match f with
  | S754_finite _ _ _ | S754_infinity _ => true
  | _ => false
  end.

(** The span stands in the column of the integer [c], and the gradients do
    not move it. *)
Definition in_column (c : Z) (s : span) : Prop :=
  sdx s = F32.of_int c /\ edx s = F32.of_int c.

Definition still (g : slopes) : Prop :=
  F32.is_zero (dxldy g) = true /\ F32.is_zero (dxrdy g) = true.

(** Every row is a single invocation in the column of [x]. *)
Definition single_pixel_rows (x : Z) (rows : list (list invocation)) : Prop :=
  Forall (fun row => exists y u v, row = [Call x y u v]) rows.

(** * Properties of the number model *)

Module IntFacts.

Lemma wrap_in_range z : Int.in_range (Int.wrap z).
Proof.
  unfold Int.in_range, Int.wrap, Int.min_int, Int.max_int.
  pose proof (Z.mod_pos_bound (z + 2 ^ 63) (2 ^ 64) ltac:(lia)). lia.
Qed.

Lemma wrap_id z : Int.in_range z -> Int.wrap z = z.
Proof.
  unfold Int.in_range, Int.wrap, Int.min_int, Int.max_int. intros Hz.
  rewrite Z.mod_small; lia.
Qed.

Lemma incr_below_max z :
  Int.min_int <= z < Int.max_int -> Int.incr z = z + 1.
Proof.
  intros Hz. unfold Int.incr, Int.add. apply wrap_id.
  unfold Int.in_range. lia.
Qed.

Lemma incr_in_range z : Int.in_range (Int.incr z).
Proof. apply wrap_in_range. Qed.

End IntFacts.

Module F32Facts.

Import F32.

(** *** Number of binary digits *)

Lemma digits2_pos_bounds p :
  2 ^ (Zpos (digits2_pos p) - 1) <= Zpos p < 2 ^ Zpos (digits2_pos p).
Proof.
  induction p as [p IH | p IH | ]; cbn [digits2_pos].
  - rewrite Pos2Z.inj_succ, (Pos2Z.inj_xI p).
    replace (Z.succ (Zpos (digits2_pos p)) - 1)
      with (Z.succ (Zpos (digits2_pos p) - 1)) by lia.
    rewrite !Z.pow_succ_r by lia. lia.
  - rewrite Pos2Z.inj_succ, (Pos2Z.inj_xO p).
    replace (Z.succ (Zpos (digits2_pos p)) - 1)
      with (Z.succ (Zpos (digits2_pos p) - 1)) by lia.
    rewrite !Z.pow_succ_r by lia. lia.
  - simpl. lia.
Qed.

Lemma Zdigits2_abs_lt m : Z.abs m < 2 ^ Zdigits2 m.
Proof.
  destruct m as [ | p | p ]; cbn [Zdigits2 Z.abs].
  - simpl. lia.
  - apply digits2_pos_bounds.
  - apply digits2_pos_bounds.
Qed.

Lemma Zdigits2_pos_le m : 0 < m -> 2 ^ (Zdigits2 m - 1) <= m.
Proof.
  destruct m as [ | p | p ]; try lia. intros _. apply digits2_pos_bounds.
Qed.

(** *** Right shifts of the rounding records *)

Lemma shr_m_of_loc m l : shr_m (shr_record_of_loc m l) = m.
Proof. destruct l as [ | [ | | ] ]; reflexivity. Qed.

Lemma half_odd a : (2 * a + 1) / 2 = a.
Proof. symmetry. apply Z.div_unique with (r := 1); lia. Qed.

Lemma half_even a : (2 * a) / 2 = a.
Proof. symmetry. apply Z.div_unique with (r := 0); lia. Qed.

Lemma shr_1_abs r : Z.abs (shr_m (shr_1 r)) = Z.abs (shr_m r) / 2.
Proof.
  destruct r as [m r s].
  destruct m as [ | [p | p | ] | [p | p | ] ]; cbn [shr_1 shr_m Z.abs];
    try reflexivity.
  - rewrite (Pos2Z.inj_xI p), half_odd. reflexivity.
  - rewrite (Pos2Z.inj_xO p), half_even. reflexivity.
  - rewrite (Pos2Z.inj_xI p), half_odd. reflexivity.
  - rewrite (Pos2Z.inj_xO p), half_even. reflexivity.
Qed.

Lemma shr_1_nonneg r : 0 <= shr_m r -> 0 <= shr_m (shr_1 r).
Proof.
  destruct r as [m r s].
  destruct m as [ | [p | p | ] | [p | p | ] ]; cbn [shr_1 shr_m]; lia.
Qed.

Lemma iter_shr_1_abs p :
  forall r,
    Z.abs (shr_m (iter_pos shr_1 p r)) = Z.abs (shr_m r) / 2 ^ Zpos p.
Proof.
  induction p as [p IH | p IH | ]; intros r; cbn [iter_pos].
  - rewrite !IH, shr_1_abs, !Z.div_div by lia.
    f_equal. rewrite (Pos2Z.inj_xI p).
    replace (2 * Zpos p + 1) with (1 + Zpos p + Zpos p) by lia.
    rewrite !Z.pow_add_r by lia. lia.
  - rewrite !IH, !Z.div_div by lia.
    f_equal. rewrite (Pos2Z.inj_xO p).
    replace (2 * Zpos p) with (Zpos p + Zpos p) by lia.
    rewrite !Z.pow_add_r by lia. lia.
  - rewrite shr_1_abs. reflexivity.
Qed.

Lemma iter_shr_1_nonneg p :
  forall r, 0 <= shr_m r -> 0 <= shr_m (iter_pos shr_1 p r).
Proof.
  induction p as [p IH | p IH | ]; intros r Hr; cbn [iter_pos].
  - apply IH, IH, shr_1_nonneg, Hr.
  - apply IH, IH, Hr.
  - apply shr_1_nonneg, Hr.
Qed.

Lemma fexp_ge x : x - prec <= fexp prec emax x.
Proof. unfold fexp. lia. Qed.

Lemma fexp_ge_emin x : SpecFloat.emin prec emax <= fexp prec emax x.
Proof. unfold fexp. lia. Qed.

(** After the shift that [shr_fexp] makes, the mantissa has at most
    [prec] digits. *)
Lemma shr_fexp_abs_lt m e l :
  Z.abs (shr_m (fst (shr_fexp prec emax m e l))) < 2 ^ prec.
Proof.
  unfold shr_fexp, shr.
  pose proof (fexp_ge (Zdigits2 m + e)) as Hn.
  pose proof (Zdigits2_abs_lt m) as Hd.
  destruct (fexp prec emax (Zdigits2 m + e) - e) as [ | p | p ] eqn:En;
    cbn [fst].
  - rewrite shr_m_of_loc.
    apply Z.lt_le_trans with (1 := Hd).
    apply Z.pow_le_mono_r; lia.
  - rewrite iter_shr_1_abs, shr_m_of_loc.
    apply Z.div_lt_upper_bound; [ lia | ].
    apply Z.lt_le_trans with (1 := Hd).
    rewrite <- Z.pow_add_r by (unfold prec; lia).
    apply Z.pow_le_mono_r; lia.
  - rewrite shr_m_of_loc.
    apply Z.lt_le_trans with (1 := Hd).
    apply Z.pow_le_mono_r; lia.
Qed.

(** A positive mantissa whose exponent is not below [emin] stays
    positive under the shift. *)
Lemma shr_fexp_pos m e l :
  0 < m -> SpecFloat.emin prec emax <= e ->
  0 < shr_m (fst (shr_fexp prec emax m e l)) /\
  SpecFloat.emin prec emax <= snd (shr_fexp prec emax m e l).
Proof.
  intros Hm He. unfold shr_fexp, shr.
  pose proof (Zdigits2_pos_le m Hm) as Hd.
  destruct (fexp prec emax (Zdigits2 m + e) - e) as [ | p | p ] eqn:En;
    cbn [fst snd]; rewrite ?shr_m_of_loc; try (split; lia).
  assert (Hp : Zpos p = Zdigits2 m - prec).
  { unfold fexp in En. lia. }
  split; [ | lia ].
  pose proof (iter_shr_1_abs p (shr_record_of_loc m l)) as Ha.
  pose proof (iter_shr_1_nonneg p (shr_record_of_loc m l)) as Hs.
  rewrite shr_m_of_loc in Ha, Hs.
  rewrite Z.abs_eq in Ha by lia. rewrite (Z.abs_eq m) in Ha by lia.
  rewrite Ha.
  apply Z.lt_le_trans with (m := 1); [ lia | ].
  apply Z.div_le_lower_bound; [ lia | ].
  rewrite Z.mul_1_r.
  apply Z.le_trans with (2 := Hd).
  apply Z.pow_le_mono_r; unfold prec in *; lia.
Qed.

Lemma round_nearest_even_ge mx lx : mx <= round_nearest_even mx lx.
Proof.
  destruct lx as [ | [ | | ] ]; cbn [round_nearest_even]; try lia.
  destruct (Z.even mx); lia.
Qed.

(** *** Well-formed floats: mantissas of at most 24 bits *)

Lemma binary_round_aux_wf s m e l :
  wf (binary_round_aux prec emax s m e l).
Proof.
  unfold binary_round_aux.
  destruct (shr_fexp prec emax m e l) as [mrs' e'].
  match goal with
  | |- context [shr_fexp prec emax ?a ?b ?c] =>
      pose proof (shr_fexp_abs_lt a b c) as Hb;
      destruct (shr_fexp prec emax a b c) as [mrs'' e'']
  end.
  cbn [fst] in Hb.
  destruct (shr_m mrs'') as [ | q | q ]; cbn [wf]; trivial.
  destruct (e'' <=? emax - prec); cbn [wf]; [ exact Hb | trivial ].
Qed.

Lemma binary_round_aux_not_zero s m e l :
  0 < m -> SpecFloat.emin prec emax <= e ->
  is_zero (binary_round_aux prec emax s m e l) = false.
Proof.
  intros Hm He. unfold binary_round_aux.
  pose proof (shr_fexp_pos m e l Hm He) as [H1 H1e].
  destruct (shr_fexp prec emax m e l) as [mrs' e'].
  cbn [fst snd] in H1, H1e.
  pose proof (round_nearest_even_ge (shr_m mrs') (loc_of_shr_record mrs'))
    as Hr.
  match goal with
  | |- context [shr_fexp prec emax ?a ?b ?c] =>
      pose proof (shr_fexp_pos a b c ltac:(lia) H1e) as [H2 _];
      destruct (shr_fexp prec emax a b c) as [mrs'' e'']
  end.
  cbn [fst] in H2.
  destruct (shr_m mrs'') as [ | q | q ]; try lia.
  destruct (e'' <=? emax - prec); reflexivity.
Qed.

Lemma lit_wf m e : wf (lit m e).
Proof.
  unfold lit, binary_normalize, binary_round.
  destruct m as [ | p | p ]; cbn [wf]; trivial.
  - destruct (shl_align p e _) as [mz ez]. apply binary_round_aux_wf.
  - destruct (shl_align p e _) as [mz ez]. apply binary_round_aux_wf.
Qed.

Lemma of_int_wf n : wf (of_int n).
Proof. apply lit_wf. Qed.

Lemma add_wf a b : wf a -> wf b -> wf (add a b).
Proof.
  intros Ha Hb. unfold add.
  destruct a as [sa | sa | | sa ma ea], b as [sb | sb | | sb mb eb];
    cbn [SFadd]; trivial;
    try (destruct sa, sb; cbn [wf]; trivial).
  all: apply lit_wf.
Qed.

Lemma div_wf a b : wf (div a b).
Proof.
  unfold div.
  destruct a as [sa | sa | | sa ma ea], b as [sb | sb | | sb mb eb];
    cbn [SFdiv wf]; trivial.
  destruct (SFdiv_core_binary prec emax (Zpos ma) ea (Zpos mb) eb)
    as [[mz ez] lz].
  apply binary_round_aux_wf.
Qed.

(** *** The conversions between [int] and [float32] *)

(** [int(f)] never answers the largest integer: a float32 below [2^63]
    is at most [2^63 - 2^39]. *)
Lemma to_int_range f :
  wf f -> Int.min_int <= to_int f < Int.max_int.
Proof.
  unfold Int.min_int, Int.max_int.
  destruct f as [s | s | | s m e]; cbn [to_int wf];
    unfold int_indefinite, Int.min_int, Int.max_int; try lia.
  intros Hm.
  destruct ((- 2 ^ 63 <=? trunc s m e) && (trunc s m e <=? 2 ^ 63 - 1))
    eqn:Ht; [ | lia ].
  apply andb_true_iff in Ht. destruct Ht as [Hlo Hhi].
  apply Z.leb_le in Hlo. apply Z.leb_le in Hhi.
  split; [ exact Hlo | ].
  revert Hlo Hhi. unfold trunc, prec in *.
  destruct e as [ | p | p ].
  - rewrite Z.pow_0_r, Z.mul_1_r. destruct s; cbn [cond_Zopp]; lia.
  - replace (2 ^ Zpos p) with (2 * 2 ^ (Zpos p - 1)).
    + destruct s; cbn [cond_Zopp]; lia.
    + rewrite <- Z.pow_succ_r by lia. f_equal. lia.
  - assert (0 <= Zpos m / 2 ^ Zpos p <= Zpos m).
    { split.
      - apply Z.div_pos; lia.
      - apply Z.div_le_upper_bound; [ lia | ].
        assert (1 <= 2 ^ Zpos p) by lia. nia. }
    destruct s; cbn [cond_Zopp]; lia.
Qed.

Lemma shl_align_emin m e e' :
  SpecFloat.emin prec emax <= e -> SpecFloat.emin prec emax <= e' ->
  SpecFloat.emin prec emax <= snd (shl_align m e e').
Proof.
  intros He He'. unfold shl_align.
  destruct (e' - e); cbn [snd]; assumption.
Qed.

(** The conversion of a non-zero integer is not a zero. *)
Lemma of_int_not_zero n : n <> 0 -> is_zero (of_int n) = false.
Proof.
  intros Hn. unfold of_int, lit, binary_normalize, binary_round.
  destruct n as [ | p | p ]; [ contradiction | | ].
  - pose proof (shl_align_emin p 0
                  (fexp prec emax (Zpos (digits2_pos p) + 0))
                  ltac:(unfold SpecFloat.emin, prec, emax; lia)
                  (fexp_ge_emin _)) as He.
    destruct (shl_align p 0 _) as [mz ez]. cbn [snd] in He.
    apply binary_round_aux_not_zero; [ lia | exact He ].
  - pose proof (shl_align_emin p 0
                  (fexp prec emax (Zpos (digits2_pos p) + 0))
                  ltac:(unfold SpecFloat.emin, prec, emax; lia)
                  (fexp_ge_emin _)) as He.
    destruct (shl_align p 0 _) as [mz ez]. cbn [snd] in He.
    apply binary_round_aux_not_zero; [ lia | exact He ].
Qed.

(** A float that differs from [0] is not a zero. *)
Lemma neb_zero_not_zero f : neb f zero = true -> is_zero f = false.
Proof.
  destruct f as [s | s | | s m e]; cbn; try reflexivity.
  discriminate.
Qed.

Lemma iter_xO_digits k :
  forall m, digits2_pos (Pos.iter xO m k) = (digits2_pos m + k)%positive.
Proof.
  induction k as [ | k IH ] using Pos.peano_ind; intros m.
  - cbn. lia.
  - rewrite Pos.iter_succ. cbn [digits2_pos]. rewrite IH. lia.
Qed.

Lemma iter_xO_value k :
  forall m, Zpos (Pos.iter xO m k) = Zpos m * 2 ^ Zpos k.
Proof.
  induction k as [ | k IH ] using Pos.peano_ind; intros m.
  - cbn. lia.
  - rewrite Pos.iter_succ, Pos2Z.inj_succ, Z.pow_succ_r by lia.
    rewrite (Pos2Z.inj_xO (Pos.iter xO m k)), IH. lia.
Qed.

(** A mantissa of exactly 24 digits within the exponent range is kept
    as it is. *)
Lemma binary_round_aux_exact s mz ez :
  digits2_pos mz = 24%positive -> -149 <= ez <= 104 ->
  binary_round_aux prec emax s (Zpos mz) ez loc_Exact
  = S754_finite s mz ez.
Proof.
  intros Hd He.
  assert (Hz : fexp prec emax (Zdigits2 (Zpos mz) + ez) - ez = 0).
  { cbn [Zdigits2]. rewrite Hd. unfold fexp, SpecFloat.emin, prec, emax.
    lia. }
  unfold binary_round_aux, shr_fexp.
  rewrite Hz. cbn [shr shr_record_of_loc shr_m loc_of_shr_record
                   round_nearest_even].
  rewrite Hz. cbn [shr shr_record_of_loc shr_m].
  replace (ez <=? emax - prec) with true; [ reflexivity | ].
  symmetry. apply Z.leb_le. unfold emax, prec. lia.
Qed.

Lemma of_int_pos_exact s p :
  Zpos p < 2 ^ 24 ->
  exists mz ez,
    binary_round prec emax s p 0 = S754_finite s mz ez /\
    trunc s mz ez = cond_Zopp s (Zpos p).
Proof.
  intros Hp. unfold binary_round.
  pose proof (digits2_pos_bounds p) as Hd.
  assert (Hd24 : Zpos (digits2_pos p) <= 24).
  { destruct (Z.le_gt_cases (Zpos (digits2_pos p)) 24) as [ | Hgt ];
      [ assumption | ].
    assert (2 ^ 24 <= 2 ^ (Zpos (digits2_pos p) - 1))
      by (apply Z.pow_le_mono_r; lia).
    lia. }
  assert (Hf : fexp prec emax (Zpos (digits2_pos p) + 0)
               = Zpos (digits2_pos p) - 24).
  { unfold fexp, SpecFloat.emin, prec, emax. lia. }
  rewrite Hf. unfold shl_align.
  destruct (Zpos (digits2_pos p) - 24 - 0) as [ | k | k ] eqn:Ek;
    try lia.
  - exists p, 0. split.
    + apply binary_round_aux_exact; [ lia | lia ].
    + unfold trunc. rewrite Z.pow_0_r, Z.mul_1_r. reflexivity.
  - exists (Pos.iter xO p k), (Zpos (digits2_pos p) - 24). split.
    + apply binary_round_aux_exact; [ | lia ].
      rewrite iter_xO_digits. lia.
    + unfold trunc.
      replace (Zpos (digits2_pos p) - 24) with (Zneg k) by lia.
      rewrite iter_xO_value, Z.div_mul by lia. reflexivity.
Qed.

(** The conversion to [int] rounds toward zero: on a float with a
    fractional part it is the truncating quotient of the signed mantissa. *)
Lemma trunc_toward_zero s m p :
  trunc s m (Zneg p) = Z.quot (cond_Zopp s (Zpos m)) (2 ^ Zpos p).
Proof.
  unfold trunc. destruct s; cbn [cond_Zopp].
  - rewrite Z.quot_opp_l by lia. f_equal.
    symmetry. apply Z.quot_div_nonneg; lia.
  - symmetry. apply Z.quot_div_nonneg; lia.
Qed.

(** Integers of fewer than 25 bits survive the round trip through
    float32. *)
Lemma to_int_of_int n : Z.abs n < 2 ^ 24 -> to_int (of_int n) = n.
Proof.
  intros Hn. unfold of_int, lit, binary_normalize.
  destruct n as [ | p | p ]; [ reflexivity | | ].
  - destruct (of_int_pos_exact false p ltac:(lia)) as (mz & ez & E & T).
    rewrite E. cbn [to_int]. rewrite T. cbn [cond_Zopp].
    unfold Int.min_int, Int.max_int.
    replace ((- 2 ^ 63 <=? Zpos p) && (Zpos p <=? 2 ^ 63 - 1)) with true;
      [ reflexivity | ].
    symmetry. apply andb_true_iff. split; apply Z.leb_le; lia.
  - destruct (of_int_pos_exact true p ltac:(lia)) as (mz & ez & E & T).
    rewrite E. cbn [to_int]. rewrite T. cbn [cond_Zopp].
    unfold Int.min_int, Int.max_int.
    replace ((- 2 ^ 63 <=? - Zpos p) && (- Zpos p <=? 2 ^ 63 - 1))
      with true; [ reflexivity | ].
    symmetry. apply andb_true_iff. split; apply Z.leb_le; lia.
Qed.

End F32Facts.

(** * Properties of the loops *)

Module LoopFacts.

Import F32Facts.

(** *** The guarded divisions never meet a zero divisor *)

Lemma checked_div_not_zero a b :
  F32.is_zero b = false -> checked_div a b = Finished (F32.div a b).
Proof. intros Hb. unfold checked_div. rewrite Hb. reflexivity. Qed.

Lemma guarded_div_edge_over g dy :
  guarded_div_edge g dy = Finished (over g dy).
Proof.
  unfold guarded_div_edge, over, div_edge.
  destruct (Z.eqb_spec dy 0) as [ | Hdy ]; cbn [negb]; [ reflexivity | ].
  rewrite !checked_div_not_zero by (apply of_int_not_zero; exact Hdy).
  reflexivity.
Qed.

Lemma pixel_deltas_deltas s : pixel_deltas s = Finished (deltas s).
Proof.
  unfold pixel_deltas, deltas.
  destruct (F32.neb (F32.sub (edx s) (sdx s)) F32.zero) eqn:Hw;
    [ | reflexivity ].
  rewrite !checked_div_not_zero by (apply neb_zero_not_zero; exact Hw).
  reflexivity.
Qed.

Lemma scanline_xloop xfuel y s :
  scanline xfuel y s
  = xloop xfuel y (F32.to_int (sdx s)) (edx s) (sdu s) (sdv s)
          (fst (deltas s)) (snd (deltas s)).
Proof.
  unfold scanline. rewrite pixel_deltas_deltas.
  destruct (deltas s); reflexivity.
Qed.

(** *** The [x] loop *)

Lemma xloop_stops_for_fuel fuel :
  forall y x e pu_ pv_ dU dV w,
    snd (xloop fuel y x e pu_ pv_ dU dV) = Stopped w -> w = OutOfFuel.
Proof.
  induction fuel as [ | k IH ]; intros y x e pu_ pv_ dU dV w; cbn [xloop].
  - cbn. congruence.
  - destruct (x <=? F32.to_int e); [ | cbn; discriminate ].
    specialize (IH y (Int.incr x) e (F32.add pu_ dU) (F32.add pv_ dV)
                   dU dV w).
    destruct (xloop k y (Int.incr x) e _ _ dU dV) as [row r].
    exact IH.
Qed.

Lemma xloop_finishes n :
  forall fuel y x e pu_ pv_ dU dV,
    Int.min_int <= x -> F32.to_int e < Int.max_int ->
    Z.to_nat (F32.to_int e - x + 1) = n -> (n < fuel)%nat ->
    exists row,
      xloop fuel y x e pu_ pv_ dU dV = (row, Finished tt) /\
      length row = n.
Proof.
  induction n as [ | n IH ]; intros fuel y x e pu_ pv_ dU dV Hx He Hn Hf;
    (destruct fuel as [ | k ]; [ lia | ]); cbn [xloop].
  - destruct (Z.leb_spec x (F32.to_int e)); [ lia | ].
    exists []. split; reflexivity.
  - destruct (Z.leb_spec x (F32.to_int e)); [ | lia ].
    rewrite IntFacts.incr_below_max by lia.
    destruct (IH k y (x + 1) e (F32.add pu_ dU) (F32.add pv_ dV) dU dV)
      as (row & E & L); try lia.
    rewrite E. exists (Call x y pu_ pv_ :: row).
    split; [ reflexivity | cbn; lia ].
Qed.

(** A span whose two ends convert to the same integer makes one
    invocation. *)
Lemma xloop_single fuel y e pu_ pv_ dU dV :
  F32.wf e ->
  xloop (S (S fuel)) y (F32.to_int e) e pu_ pv_ dU dV
  = ([Call (F32.to_int e) y pu_ pv_], Finished tt).
Proof.
  intros He. pose proof (to_int_range e He) as Hr.
  cbn [xloop]. rewrite Z.leb_refl.
  rewrite IntFacts.incr_below_max by lia.
  destruct (Z.leb_spec (F32.to_int e + 1) (F32.to_int e)); [ lia | ].
  reflexivity.
Qed.

(** *** Well-formed spans *)

Lemma over_wf g dy : F32.wf (dxdy g) -> F32.wf (dxdy (over g dy)).
Proof.
  intros Hg. unfold over. destruct (dy =? 0); [ exact Hg | ].
  cbn [dxdy]. apply div_wf.
Qed.

Lemma classify_wf e1 e2 :
  F32.wf (dxdy e1) -> F32.wf (dxdy e2) -> wf_slopes (classify e1 e2).
Proof.
  intros H1 H2. unfold classify, wf_slopes.
  destruct (F32.ltb (dxdy e1) (dxdy e2)); cbn; auto.
Qed.

Lemma initial_span_wf t : wf_span (initial_span t).
Proof. split; apply of_int_wf. Qed.

Lemma advance_wf g s : wf_slopes g -> wf_span s -> wf_span (advance g s).
Proof.
  intros [Hl Hr] [Hs He]. split; cbn; apply add_wf; assumption.
Qed.

Lemma iter_advance_wf g n :
  forall s, wf_slopes g -> wf_span s -> wf_span (Nat.iter n (advance g) s).
Proof.
  induction n as [ | n IH ]; intros s Hg Hs; [ exact Hs | ].
  rewrite Nat.iter_succ.
  apply advance_wf; [ exact Hg | apply IH; assumption ].
Qed.

(** *** The [y] loops *)

Lemma yloop_stops_for_fuel fuel :
  forall xfuel y hi g s w,
    snd (yloop xfuel fuel y hi g s) = Stopped w -> w = OutOfFuel.
Proof.
  induction fuel as [ | k IH ]; intros xfuel y hi g s w; cbn [yloop].
  - cbn. congruence.
  - destruct (y <=? hi); [ | cbn; discriminate ].
    rewrite scanline_xloop.
    pose proof (xloop_stops_for_fuel xfuel y (F32.to_int (sdx s)) (edx s)
                  (sdu s) (sdv s) (fst (deltas s)) (snd (deltas s))) as Hx.
    destruct (xloop xfuel y _ (edx s) _ _ _ _) as [row [ [] | wx ]].
    + specialize (IH xfuel (Int.incr y) hi g (advance g s) w).
      destruct (yloop xfuel k (Int.incr y) hi g (advance g s)) as [rows r].
      exact IH.
    + cbn [snd] in *. intros E. injection E as <-. apply Hx. reflexivity.
Qed.

Lemma yloop_finishes n :
  forall xfuel fuel y hi g s,
    2 ^ 64 <= Z.of_nat xfuel ->
    Int.min_int <= y -> hi < Int.max_int ->
    Z.to_nat (hi - y + 1) = n -> (n < fuel)%nat ->
    wf_slopes g -> wf_span s ->
    exists rows,
      yloop xfuel fuel y hi g s
      = (rows, Finished (Nat.iter n (advance g) s)) /\
      length rows = n /\
      Forall (fun row => Z.of_nat (length row) < 2 ^ 64) rows.
Proof.
  induction n as [ | n IH ];
    intros xfuel fuel y hi g s Hxf Hy Hhi Hn Hf Hg Hs;
    (destruct fuel as [ | k ]; [ lia | ]); cbn [yloop].
  - destruct (Z.leb_spec y hi); [ lia | ].
    exists []. repeat split. constructor.
  - destruct (Z.leb_spec y hi); [ | lia ].
    rewrite scanline_xloop.
    destruct Hs as [Hsx Hex].
    pose proof (to_int_range _ Hsx) as Rs.
    pose proof (to_int_range _ Hex) as Re.
    unfold Int.min_int, Int.max_int in Rs, Re.
    destruct (xloop_finishes
                (Z.to_nat (F32.to_int (edx s) - F32.to_int (sdx s) + 1))
                xfuel y (F32.to_int (sdx s)) (edx s) (sdu s) (sdv s)
                (fst (deltas s)) (snd (deltas s)))
      as (row & E & L); unfold Int.min_int, Int.max_int; try lia.
    rewrite E.
    rewrite IntFacts.incr_below_max by (unfold Int.min_int in *; lia).
    destruct (IH xfuel k (y + 1) hi g (advance g s))
      as (rows & E' & L' & B); try lia; try assumption.
    { apply advance_wf; [ assumption | split; assumption ]. }
    rewrite E'. exists (row :: rows). repeat split.
    + rewrite Nat.iter_succ_r. reflexivity.
    + cbn. lia.
    + constructor; [ lia | exact B ].
Qed.

End LoopFacts.

(** * The sort step *)

Ltac perm3 :=
  first
    [ apply Permutation_refl
    | apply perm_swap
    | apply perm_skip; apply perm_swap
    | eapply perm_trans; [ apply perm_swap | apply perm_skip; apply perm_swap ]
    | eapply perm_trans; [ apply perm_skip; apply perm_swap | apply perm_swap ]
    | eapply perm_trans;
      [ apply perm_swap
      | eapply perm_trans; [ apply perm_skip; apply perm_swap
                           | apply perm_swap ] ] ].

(** C3.  After the three conditional swaps of [multiSwap] the working
    vertices satisfy [y0 <= y2 <= y1], and the three quadruples
    [(x, y, u, v)] are a permutation of the three quadruples passed in:
    every swap moves the four fields of a vertex together. *)
Theorem multiSwap_sorts_and_permutes (t : verts) :
  let s := multiSwap t in
  y0 s <= y2 s <= y1 s /\
  Permutation [vertex0 s; vertex1 s; vertex2 s]
              [vertex0 t; vertex1 t; vertex2 t].
Proof.
  destruct t as [a0 b0 a1 b1 a2 b2 p0 q0 p1 q1 p2 q2].
  unfold multiSwap, swap10. cbn [x0 y0 x1 y1 x2 y2 u0 v0 u1 v1 u2 v2].
  destruct (Z.ltb_spec b1 b0);
    unfold swap20, swapInt, swapFloat32;
    cbn [x0 y0 x1 y1 x2 y2 u0 v0 u1 v1 u2 v2];
    match goal with |- context [?a <? ?b] => destruct (Z.ltb_spec a b) end;
    unfold swap21, swapInt, swapFloat32;
    cbn [x0 y0 x1 y1 x2 y2 u0 v0 u1 v1 u2 v2];
    match goal with |- context [?a <? ?b] => destruct (Z.ltb_spec a b) end;
    unfold vertex0, vertex1, vertex2;
    cbn [x0 y0 x1 y1 x2 y2 u0 v0 u1 v1 u2 v2];
    (split; [ lia | perm3 ]).
Qed.

Lemma multiSwap_ys_below_max t :
  ys_below_max t -> ys_below_max (multiSwap t).
Proof.
  destruct t as [a0 b0 a1 b1 a2 b2 p0 q0 p1 q1 p2 q2].
  unfold ys_below_max, y_below_max, multiSwap, swap10.
  cbn [x0 y0 x1 y1 x2 y2 u0 v0 u1 v1 u2 v2].
  intros H.
  destruct (Z.ltb_spec b1 b0);
    unfold swap20, swapInt, swapFloat32;
    cbn [x0 y0 x1 y1 x2 y2 u0 v0 u1 v1 u2 v2];
    match goal with |- context [?a <? ?b] => destruct (Z.ltb_spec a b) end;
    unfold swap21, swapInt, swapFloat32;
    cbn [x0 y0 x1 y1 x2 y2 u0 v0 u1 v1 u2 v2];
    match goal with |- context [?a <? ?b] => destruct (Z.ltb_spec a b) end;
    cbn [x0 y0 x1 y1 x2 y2 u0 v0 u1 v1 u2 v2]; lia.
Qed.

(** When the three [y] are pairwise distinct, the sorted working variables
    do not depend on the order of the arguments. *)
Lemma multiSwap_permute o t :
  y0 t <> y1 t -> y0 t <> y2 t -> y1 t <> y2 t ->
  multiSwap (permute o t) = multiSwap t.
Proof.
  destruct t as [a0 b0 a1 b1 a2 b2 p0 q0 p1 q1 p2 q2].
  cbn [x0 y0 x1 y1 x2 y2 u0 v0 u1 v1 u2 v2]. intros H01 H02 H12.
  destruct o; unfold permute, multiSwap, swap10;
    cbn [x0 y0 x1 y1 x2 y2 u0 v0 u1 v1 u2 v2];
    repeat
      (match goal with
       | |- context [?a <? ?b] => destruct (Z.ltb_spec a b)
       end;
       unfold swap20, swap21, swap10, swapInt, swapFloat32;
       cbn [x0 y0 x1 y1 x2 y2 u0 v0 u1 v1 u2 v2] in *);
    first [ reflexivity | lia ].
Qed.

(** * The edge gradients of the top half *)

(** C1.  For the triangle with vertex 0 at [(0,0)] ([u = 0], [v = 1]) and
    vertex 1 at [(0,2)] ([u = 1], [v = 0]), where [y1 - y0 = 2], the
    specification asks for [dxdu2 = (u1 - u0) / 2 = 1/2].  The code divides
    [u1 - v0] instead and obtains [dxdu2 = 0]. *)
Theorem dxdu2_subtracts_v0_at_skew_uv_triangle :
  let t := multiSwap skew_uv_triangle in
  Int.sub (y1 t) (y0 t) = 2 /\
  exists e,
    edge2 t = Finished e /\
    dxdu e = F32.div (F32.sub (u1 t) (v0 t)) (F32.of_int 2) /\
    dxdu e = F32.zero /\
    F32.div (F32.sub (u1 t) (u0 t)) (F32.of_int 2) = F32.lit 1 (-1) /\
    dxdu e <> F32.div (F32.sub (u1 t) (u0 t)) (F32.of_int 2).
Proof.
  cbv zeta. split; [ vm_compute; reflexivity | ].
  exists (over (raw_edge2 (multiSwap skew_uv_triangle)) 2).
  repeat split; try (vm_compute; reflexivity).
  vm_compute. discriminate.
Qed.

(** The other two components of the gradient are the rates of change along
    the edge, for every input. *)
Lemma edge2_components t :
  Int.sub (y1 t) (y0 t) <> 0 ->
  exists e,
    edge2 t = Finished e /\
    dxdy e = F32.div (F32.of_int (Int.sub (x1 t) (x0 t)))
                     (F32.of_int (Int.sub (y1 t) (y0 t))) /\
    dxdu e = F32.div (F32.sub (u1 t) (v0 t))
                     (F32.of_int (Int.sub (y1 t) (y0 t))) /\
    dxdv e = F32.div (F32.sub (v1 t) (v0 t))
                     (F32.of_int (Int.sub (y1 t) (y0 t))).
Proof.
  intros Hy. unfold edge2. rewrite LoopFacts.guarded_div_edge_over.
  eexists. split; [ reflexivity | ].
  unfold over. destruct (Z.eqb_spec (Int.sub (y1 t) (y0 t)) 0); [ lia | ].
  repeat split.
Qed.

(** * Coverage *)

(** C2.  The triangle [(0,0) (16,8) (16,4)] has positive area.  The centre
    of the pixel [(11,5)] lies strictly inside it and the call never
    invokes the shader there; the centre of [(12,4)] lies strictly inside
    it and the call invokes the shader there twice, once in the last
    scanline of the top half and once in the first scanline of the bottom
    half. *)
Theorem wedge_triangle_gap_and_double_visit :
  let t := wedge_triangle in
  let r := Rasterize 32 t in
  positive_area t = true /\
  outcome r = Finished tt /\
  strictly_inside t 11 5 = true /\ visits r 11 5 = 0%nat /\
  strictly_inside t 12 4 = true /\ visits r 12 4 = 2%nat.
Proof. vm_compute. repeat split. Qed.

(** * The bottom-half setup *)

Lemma bottom_setup_cases t e1 e2 g s :
  exists g' s',
    bottom_setup t e1 e2 g s = Finished (g', s') /\
    slope_of (side_of_edge1 e1 e2) g'
    = over (raw_edge21 t) (Int.sub (y1 t) (y2 t)) /\
    end_of (side_of_edge1 e1 e2) s' = (F32.of_int (x2 t), u2 t, v2 t) /\
    slope_of (other (side_of_edge1 e1 e2)) g'
    = slope_of (other (side_of_edge1 e1 e2)) g /\
    end_of (other (side_of_edge1 e1 e2)) s'
    = end_of (other (side_of_edge1 e1 e2)) s.
Proof.
  unfold bottom_setup, edge21, side_of_edge1.
  rewrite LoopFacts.guarded_div_edge_over. cbn [bind].
  destruct (over (raw_edge21 t) (Int.sub (y1 t) (y2 t))) as [a b c].
  destruct (F32.ltb (dxdy e1) (dxdy e2));
    eexists; eexists; (split; [ reflexivity | ]); repeat split.
Qed.

Lemma bottom_setup_wf t e1 e2 g s g' s' :
  wf_slopes g -> wf_span s ->
  bottom_setup t e1 e2 g s = Finished (g', s') ->
  wf_slopes g' /\ wf_span s'.
Proof.
  intros [Hl Hr] [Hs He]. unfold bottom_setup, edge21.
  rewrite LoopFacts.guarded_div_edge_over. cbn [bind].
  pose proof (LoopFacts.over_wf (raw_edge21 t) (Int.sub (y1 t) (y2 t))
                (F32Facts.of_int_wf _)) as Ho.
  pose proof (F32Facts.of_int_wf (x2 t)) as Hx.
  destruct (F32.ltb (dxdy e1) (dxdy e2)); intros E; injection E as <- <-;
    unfold wf_slopes, wf_span; cbn; auto.
Qed.

(** C4, as the code has it.  The classification gives the edge from vertex
    0 to vertex 2 to one side of the span: the left one when
    [dxdy1 < dxdy2], the right one otherwise.  The bottom-half setup
    replaces the gradient of that side by the gradient from vertex 2 to
    vertex 1 (divided by [y1 - y2] when that is not zero) and resets the
    running span value of that same side to vertex 2; the gradient and the
    running span value of the other side are kept. *)
Theorem bottom_setup_replaces_side_of_edge1
    (t : verts) (e1 e2 : edge) (g : slopes) (s : span) :
  let sd := side_of_edge1 e1 e2 in
  slope_of sd (classify e1 e2) = e1 /\
  exists g' s',
    bottom_setup t e1 e2 g s = Finished (g', s') /\
    slope_of sd g' = over (raw_edge21 t) (Int.sub (y1 t) (y2 t)) /\
    end_of sd s' = (F32.of_int (x2 t), u2 t, v2 t) /\
    slope_of (other sd) g' = slope_of (other sd) g /\
    end_of (other sd) s' = end_of (other sd) s.
Proof.
  cbv zeta. split.
  - unfold side_of_edge1, classify. destruct e1 as [a b c].
    destruct (F32.ltb (dxdy (Edge a b c)) (dxdy e2)); reflexivity.
  - apply bottom_setup_cases.
Qed.

(** C4, as the specification words it, fails for the triangle
    [(0,0) (4,2) (0,1)]: the edge from vertex 0 to vertex 2 is classified
    left, and after the setup the running value of the opposite (right)
    end of the span is still the one the top half left, not vertex 2; the
    end that is reset to vertex 2 is the left one. *)
Lemma bottom_setup_keeps_opposite_end_at_sliver :
  let t := multiSwap sliver_triangle in
  let e1 := over (raw_edge1 t) (Int.sub (y2 t) (y0 t)) in
  let e2 := over (raw_edge2 t) (Int.sub (y1 t) (y0 t)) in
  let g := classify e1 e2 in
  edge1 t = Finished e1 /\ edge2 t = Finished e2 /\
  side_of_edge1 e1 e2 = Left /\
  match yloop 8 8 (y0 t) (y2 t) g (initial_span t) with
  | (_, Finished s) =>
      match bottom_setup t e1 e2 g s with
      | Finished (g', s') =>
          end_of Right s' = end_of Right s /\
          end_of Right s' <> (F32.of_int (x2 t), u2 t, v2 t) /\
          end_of Left s' = (F32.of_int (x2 t), u2 t, v2 t)
      | Stopped _ => False
      end
  | (_, Stopped _) => False
  end.
Proof.
  vm_compute. repeat split. discriminate.
Qed.

(** * The default shader *)

Lemma clamp_min_max t m : 0 <= m -> clamp t m = Z.max 0 (Z.min t m).
Proof.
  intros Hm. unfold clamp.
  destruct (Z.ltb_spec m t); [ lia | ].
  destruct (Z.ltb_spec t 0); lia.
Qed.

(** C5.  For a texture with [maxX >= 0] and [maxY >= 0], an invocation
    [(x, y, u, v)] of the default shader converts [u * maxX] and [v * maxY]
    to integers by truncation, clamps them to [[0, maxX]] and [[0, maxY]],
    and sets the target at [(x, y)] to the colour of the texture at the
    clamped coordinates; the truncation is the quotient rounded toward
    zero.  With [maxX = maxY = 3], [u = 1.5] and [v = -0.5]
    the products [4.5] and [-1.5] convert to [4] and [-1] and the texel is
    [(3, 0)]. *)
Theorem default_shader_samples_clamped_texel
    {Tex Img Color : Type} `{Image Tex Color} `{DrawImage Img Color}
    (target : Img) (texture : Tex) (x y : Z) (u v : float32) :
  0 <= maxX texture -> 0 <= maxY texture ->
  let tx := F32.to_int (F32.mul u (F32.of_int (maxX texture))) in
  let ty := F32.to_int (F32.mul v (F32.of_int (maxY texture))) in
  let cx := Z.max 0 (Z.min tx (maxX texture)) in
  let cy := Z.max 0 (Z.min ty (maxY texture)) in
  NewDefaultShader texture x y u v target
  = Set_ target x y (At texture cx cy) /\
  0 <= cx <= maxX texture /\ 0 <= cy <= maxY texture /\
  (forall s m p,
      F32.trunc s m (Zneg p) = Z.quot (cond_Zopp s (Zpos m)) (2 ^ Zpos p)) /\
  F32.to_int (F32.mul (F32.lit 3 (-1)) (F32.of_int 3)) = 4 /\
  F32.to_int (F32.mul (F32.lit (-1) (-1)) (F32.of_int 3)) = -1 /\
  texel 3 3 (F32.lit 3 (-1)) (F32.lit (-1) (-1)) = (3, 0).
Proof.
  intros Hx Hy. cbv zeta. split; [ | split; [ | split; [ | split ] ] ].
  - unfold NewDefaultShader, texel.
    rewrite !clamp_min_max by assumption. reflexivity.
  - lia.
  - lia.
  - apply F32Facts.trunc_toward_zero.
  - vm_compute. repeat split.
Qed.

Lemma default_shader_samples_clamped_texel_witness :
  NewDefaultShader texture4 2 5 (F32.lit 3 (-1)) (F32.lit (-1) (-1)) blank
  = Set_ blank 2 5 (At texture4 3 0).
Proof.
  assert (Hx : 0 <= maxX texture4) by (vm_compute; discriminate).
  assert (Hy : 0 <= maxY texture4) by (vm_compute; discriminate).
  pose proof (default_shader_samples_clamped_texel
                blank texture4 2 5 (F32.lit 3 (-1)) (F32.lit (-1) (-1))
                Hx Hy) as [E _].
  vm_compute in E. vm_compute. exact E.
Defined.

(** * Reordering the vertices *)

(** C7, restricted to what the sort step can undo.  When the three
    vertices have pairwise distinct [y], passing them in any of the six
    orders gives the same run: the same invocations, with the same [u] and
    [v], in the same sequence. *)
Theorem Rasterize_order_independent_for_distinct_y
    (o : order) (t : verts) (fuel : nat) :
  y0 t <> y1 t -> y0 t <> y2 t -> y1 t <> y2 t ->
  Rasterize fuel (permute o t) = Rasterize fuel t.
Proof.
  intros H01 H02 H12. unfold Rasterize.
  rewrite multiSwap_permute by assumption. reflexivity.
Qed.

Lemma Rasterize_order_independent_for_distinct_y_witness :
  Rasterize 32 (permute O120 wedge_triangle) = Rasterize 32 wedge_triangle.
Proof.
  apply (Rasterize_order_independent_for_distinct_y O120 wedge_triangle 32);
    vm_compute; discriminate.
Defined.

(** C7 as stated fails when two vertices share their [y].  The flat-top
    triangle [(0,0) (4,0) (0,4)] passed with its first two vertices
    exchanged shades another set of pixels: the pixel [(3,1)] is shaded in
    the first order and not in the second. *)
Lemma reordering_flat_top_changes_pixels :
  outcome (Rasterize 16 flat_top_triangle) = Finished tt /\
  outcome (Rasterize 16 (permute O102 flat_top_triangle)) = Finished tt /\
  ~ same_pixels (Rasterize 16 (permute O102 flat_top_triangle))
                (Rasterize 16 flat_top_triangle).
Proof.
  split; [ vm_compute; reflexivity | ].
  split; [ vm_compute; reflexivity | ].
  intros Hs. specialize (Hs 3 1).
  assert (E : visits (Rasterize 16 (permute O102 flat_top_triangle)) 3 1
              = 0%nat) by (vm_compute; reflexivity).
  assert (E' : visits (Rasterize 16 flat_top_triangle) 3 1 = 1%nat)
    by (vm_compute; reflexivity).
  rewrite E, E' in Hs. destruct Hs as [Hs _].
  specialize (Hs eq_refl). discriminate Hs.
Qed.

(** * Divisions *)

Lemma rasterize_sorted_stops_for_fuel fuel t w :
  outcome (rasterize_sorted fuel t) = Stopped w -> w = OutOfFuel.
Proof.
  unfold rasterize_sorted, edge1, edge2.
  rewrite !LoopFacts.guarded_div_edge_over.
  match goal with
  | |- context [yloop fuel fuel ?y ?hi ?g ?s] =>
      pose proof (LoopFacts.yloop_stops_for_fuel fuel fuel y hi g s) as Htop;
      destruct (yloop fuel fuel y hi g s) as [rows [s1 | w1]]
  end; cbn [snd] in Htop.
  2: { cbn [outcome]. intros E. injection E as <-. apply Htop. reflexivity. }
  match goal with
  | |- context [bottom_setup ?a ?b ?c ?d ?e] =>
      destruct (bottom_setup_cases a b c d e) as (g' & s' & E & _)
  end.
  rewrite E.
  pose proof (LoopFacts.yloop_stops_for_fuel fuel fuel (y2 t) (y1 t) g' s')
    as Hbot.
  destruct (yloop fuel fuel (y2 t) (y1 t) g' s') as [rows' [s2 | w2]];
    cbn [snd outcome] in *.
  - discriminate.
  - intros E'. injection E' as <-. apply Hbot. reflexivity.
Qed.

(** C8.  No run of [Rasterize] executes a division by zero.  The three
    divisions of an edge gradient are executed only when the integer height
    of the edge is not zero, and then the divisor, the conversion of that
    height, is not a zero; the two divisions of [pDeltaU] and [pDeltaV] are
    executed only when [edx - sdx != 0].  When the guard fails the
    undivided values are kept. *)
Theorem Rasterize_never_divides_by_zero (fuel : nat) (t : verts) :
  outcome (Rasterize fuel t) <> Stopped DivByZero /\
  (forall g dy, guarded_div_edge g dy = Finished (over g dy)) /\
  (forall g dy,
      over g dy
      = if dy =? 0 then g
        else Edge (F32.div (dxdy g) (F32.of_int dy))
                  (F32.div (dxdu g) (F32.of_int dy))
                  (F32.div (dxdv g) (F32.of_int dy))) /\
  (forall dy, F32.is_zero (F32.of_int dy) = (dy =? 0)) /\
  (forall s, pixel_deltas s = Finished (deltas s)) /\
  (forall s,
      deltas s
      = if F32.neb (F32.sub (edx s) (sdx s)) F32.zero
        then (F32.div (F32.sub (edu s) (sdu s)) (F32.sub (edx s) (sdx s)),
              F32.div (F32.sub (edv s) (sdv s)) (F32.sub (edx s) (sdx s)))
        else (F32.sub (edu s) (sdu s), F32.sub (edv s) (sdv s))).
Proof.
  split; [ | split; [ | split; [ | split; [ | split ] ] ] ].
  - intros E. apply rasterize_sorted_stops_for_fuel in E. discriminate E.
  - apply LoopFacts.guarded_div_edge_over.
  - reflexivity.
  - intros dy. destruct (Z.eqb_spec dy 0) as [-> | Hdy]; [ reflexivity | ].
    apply F32Facts.of_int_not_zero. exact Hdy.
  - apply LoopFacts.pixel_deltas_deltas.
  - reflexivity.
Qed.

(** * Termination *)

Lemma multiSwap_sorted t :
  y0 (multiSwap t) <= y2 (multiSwap t) <= y1 (multiSwap t).
Proof.
  destruct t as [a0 b0 a1 b1 a2 b2 p0 q0 p1 q1 p2 q2].
  unfold multiSwap, swap10. cbn [x0 y0 x1 y1 x2 y2 u0 v0 u1 v1 u2 v2].
  destruct (Z.ltb_spec b1 b0);
    unfold swap20, swapInt, swapFloat32;
    cbn [x0 y0 x1 y1 x2 y2 u0 v0 u1 v1 u2 v2];
    match goal with |- context [?a <? ?b] => destruct (Z.ltb_spec a b) end;
    unfold swap21, swapInt, swapFloat32;
    cbn [x0 y0 x1 y1 x2 y2 u0 v0 u1 v1 u2 v2];
    match goal with |- context [?a <? ?b] => destruct (Z.ltb_spec a b) end;
    cbn [x0 y0 x1 y1 x2 y2 u0 v0 u1 v1 u2 v2]; lia.
Qed.

Lemma top_slopes_wf t :
  wf_slopes (classify (over (raw_edge1 t) (Int.sub (y2 t) (y0 t)))
                      (over (raw_edge2 t) (Int.sub (y1 t) (y0 t)))).
Proof.
  apply LoopFacts.classify_wf; apply LoopFacts.over_wf;
    apply F32Facts.of_int_wf.
Qed.

Lemma rasterize_sorted_finishes fuel t :
  ys_below_max t -> y0 t <= y2 t <= y1 t -> 2 ^ 64 <= Z.of_nat fuel ->
  outcome (rasterize_sorted fuel t) = Finished tt /\
  Z.of_nat (length (top_rows (rasterize_sorted fuel t))) = y2 t - y0 t + 1 /\
  Z.of_nat (length (bottom_rows (rasterize_sorted fuel t)))
  = y1 t - y2 t + 1 /\
  Forall (fun row => Z.of_nat (length row) < 2 ^ 64)
         (top_rows (rasterize_sorted fuel t)
          ++ bottom_rows (rasterize_sorted fuel t)).
Proof.
  intros (H0 & H1 & H2) Hs Hf.
  unfold y_below_max, Int.min_int, Int.max_int in H0, H1, H2.
  unfold rasterize_sorted, edge1, edge2.
  rewrite !LoopFacts.guarded_div_edge_over.
  pose proof (top_slopes_wf t) as Hg.
  set (e1 := over (raw_edge1 t) (Int.sub (y2 t) (y0 t))) in *.
  set (e2 := over (raw_edge2 t) (Int.sub (y1 t) (y0 t))) in *.
  destruct (LoopFacts.yloop_finishes (Z.to_nat (y2 t - y0 t + 1)) fuel fuel
              (y0 t) (y2 t) (classify e1 e2) (initial_span t))
    as (rows & E & L & B);
    unfold Int.min_int, Int.max_int; try lia; try assumption.
  { apply LoopFacts.initial_span_wf. }
  rewrite E.
  set (s1 := Nat.iter (Z.to_nat (y2 t - y0 t + 1))
                      (advance (classify e1 e2)) (initial_span t)) in *.
  assert (Hs1 : wf_span s1).
  { apply LoopFacts.iter_advance_wf;
      [ assumption | apply LoopFacts.initial_span_wf ]. }
  destruct (bottom_setup_cases t e1 e2 (classify e1 e2) s1)
    as (g' & s' & Eb & _).
  destruct (bottom_setup_wf _ _ _ _ _ _ _ Hg Hs1 Eb) as [Hg' Hs'].
  rewrite Eb.
  destruct (LoopFacts.yloop_finishes (Z.to_nat (y1 t - y2 t + 1)) fuel fuel
              (y2 t) (y1 t) g' s')
    as (rows' & E' & L' & B');
    unfold Int.min_int, Int.max_int; try lia; try assumption.
  rewrite E'. cbn [outcome top_rows bottom_rows].
  repeat split; try lia.
  apply Forall_app. split; assumption.
Qed.

Lemma scanline_finishes fuel y s :
  wf_span s -> 2 ^ 64 <= Z.of_nat fuel ->
  exists row,
    scanline fuel y s = (row, Finished tt) /\
    Z.of_nat (length row)
    = Z.max 0 (F32.to_int (edx s) - F32.to_int (sdx s) + 1).
Proof.
  intros [Hsx Hex] Hf. rewrite LoopFacts.scanline_xloop.
  pose proof (F32Facts.to_int_range _ Hsx) as Rs.
  pose proof (F32Facts.to_int_range _ Hex) as Re.
  unfold Int.min_int, Int.max_int in Rs, Re.
  destruct (LoopFacts.xloop_finishes
              (Z.to_nat (F32.to_int (edx s) - F32.to_int (sdx s) + 1))
              fuel y (F32.to_int (sdx s)) (edx s) (sdu s) (sdv s)
              (fst (deltas s)) (snd (deltas s)))
    as (row & E & L); unfold Int.min_int, Int.max_int; try lia.
  exists row. split; [ exact E | lia ].
Qed.

(** C9, for coordinates below the largest [int].  When the three [y] are
    below [2^63 - 1], [Rasterize] terminates: the top-half loop makes
    exactly [y2 - y0 + 1] iterations and the bottom-half loop exactly
    [y1 - y2 + 1], counted on the sorted vertices, and every [x] loop makes
    [max 0 (int(edx) - int(sdx) + 1)] iterations, fewer than [2^64]. *)
Theorem Rasterize_terminates_below_max_int (t : verts) :
  ys_below_max t ->
  exists n : nat,
    forall fuel, (n <= fuel)%nat ->
      outcome (Rasterize fuel t) = Finished tt /\
      Z.of_nat (length (top_rows (Rasterize fuel t)))
      = y2 (multiSwap t) - y0 (multiSwap t) + 1 /\
      Z.of_nat (length (bottom_rows (Rasterize fuel t)))
      = y1 (multiSwap t) - y2 (multiSwap t) + 1 /\
      Forall (fun row => Z.of_nat (length row) < 2 ^ 64)
             (top_rows (Rasterize fuel t) ++ bottom_rows (Rasterize fuel t)) /\
      (forall y s,
          wf_span s ->
          exists row,
            scanline fuel y s = (row, Finished tt) /\
            Z.of_nat (length row)
            = Z.max 0 (F32.to_int (edx s) - F32.to_int (sdx s) + 1)).
Proof.
  intros Hy. exists (Z.to_nat (2 ^ 64)). intros fuel Hf.
  assert (Hf' : 2 ^ 64 <= Z.of_nat fuel) by lia.
  pose proof (rasterize_sorted_finishes fuel (multiSwap t)
                (multiSwap_ys_below_max t Hy) (multiSwap_sorted t) Hf')
    as (A & B & C & D).
  unfold Rasterize. repeat split; try assumption.
  intros y s Hs. apply scanline_finishes; assumption.
Qed.

Lemma Rasterize_terminates_below_max_int_witness :
  exists n : nat,
    forall fuel, (n <= fuel)%nat ->
      outcome (Rasterize fuel wedge_triangle) = Finished tt /\
      Z.of_nat (length (top_rows (Rasterize fuel wedge_triangle)))
      = y2 (multiSwap wedge_triangle) - y0 (multiSwap wedge_triangle) + 1 /\
      Z.of_nat (length (bottom_rows (Rasterize fuel wedge_triangle)))
      = y1 (multiSwap wedge_triangle) - y2 (multiSwap wedge_triangle) + 1 /\
      Forall (fun row => Z.of_nat (length row) < 2 ^ 64)
             (top_rows (Rasterize fuel wedge_triangle)
              ++ bottom_rows (Rasterize fuel wedge_triangle)) /\
      (forall y s,
          wf_span s ->
          exists row,
            scanline fuel y s = (row, Finished tt) /\
            Z.of_nat (length row)
            = Z.max 0 (F32.to_int (edx s) - F32.to_int (sdx s) + 1)).
Proof.
  apply (Rasterize_terminates_below_max_int wedge_triangle).
  unfold ys_below_max, y_below_max.
  repeat split; vm_compute; congruence.
Defined.

Lemma yloop_to_max_int_never_finishes fuel :
  forall xfuel y g s s',
    Int.in_range y ->
    snd (yloop xfuel fuel y Int.max_int g s) <> Finished s'.
Proof.
  induction fuel as [ | k IH ]; intros xfuel y g s s' Hy; cbn [yloop].
  - cbn. discriminate.
  - destruct (Z.leb_spec y Int.max_int) as [ _ | Hgt ];
      [ | unfold Int.in_range in Hy; lia ].
    destruct (scanline xfuel y s) as [row [ [] | w ]]; [ | cbn; discriminate ].
    specialize (IH xfuel (Int.incr y) g (advance g s) s'
                   (IntFacts.incr_in_range y)).
    destruct (yloop xfuel k (Int.incr y) Int.max_int g (advance g s))
      as [rows r].
    exact IH.
Qed.

(** C9 as stated fails at the largest [int]: for the degenerate triangle
    whose three vertices are [(0, 2^63 - 1)] the condition [y <= y2] of the
    top-half loop holds for every [int], [y++] wraps around, and no amount
    of fuel lets the call finish. *)
Lemma Rasterize_runs_forever_at_max_int :
  ~ exists fuel, outcome (Rasterize fuel max_int_point) = Finished tt.
Proof.
  intros [fuel E]. unfold Rasterize in E.
  replace (multiSwap max_int_point) with max_int_point in E
    by (vm_compute; reflexivity).
  unfold rasterize_sorted, edge1, edge2 in E.
  rewrite !LoopFacts.guarded_div_edge_over in E.
  change (y2 max_int_point) with Int.max_int in E.
  change (y0 max_int_point) with Int.max_int in E.
  match type of E with
  | context [yloop fuel fuel ?y Int.max_int ?g ?s] =>
      pose proof (fun s' => yloop_to_max_int_never_finishes fuel fuel y g s s')
        as H;
      destruct (yloop fuel fuel y Int.max_int g s) as [rows [s1 | w]]
  end.
  - apply (H s1); [ | reflexivity ].
    unfold Int.in_range, Int.min_int, Int.max_int. lia.
  - cbn [outcome] in E. discriminate E.
Qed.

(** * The first scanline *)

(** The first iteration of a scanline loop, as far as its first shader
    invocation. *)
Lemma yloop_head xfuel fuel y hi g s :
  y <= hi -> F32.to_int (sdx s) <= F32.to_int (edx s) ->
  exists row rows e,
    yloop (S xfuel) (S fuel) y hi g s
    = ((Call (F32.to_int (sdx s)) y (sdu s) (sdv s) :: row) :: rows, e).
Proof.
  intros Hy Hx. cbn [yloop].
  destruct (Z.leb_spec y hi); [ | lia ].
  rewrite LoopFacts.scanline_xloop. cbn [xloop].
  destruct (Z.leb_spec (F32.to_int (sdx s)) (F32.to_int (edx s))); [ | lia ].
  destruct (xloop xfuel y _ _ _ _ _ _) as [row [ [] | w ]].
  - destruct (yloop (S xfuel) fuel _ _ _ _) as [rows e].
    do 3 eexists. reflexivity.
  - do 3 eexists. reflexivity.
Qed.

Lemma rasterize_sorted_first fuel t :
  y0 t <= y2 t ->
  exists row rows,
    top_rows (rasterize_sorted (S fuel) t)
    = (Call (F32.to_int (F32.of_int (x0 t))) (y0 t) (u0 t) (v0 t) :: row)
      :: rows.
Proof.
  intros Hy. unfold rasterize_sorted, edge1, edge2.
  rewrite !LoopFacts.guarded_div_edge_over.
  set (e1 := over (raw_edge1 t) (Int.sub (y2 t) (y0 t))).
  set (e2 := over (raw_edge2 t) (Int.sub (y1 t) (y0 t))).
  destruct (yloop_head fuel fuel (y0 t) (y2 t) (classify e1 e2)
              (initial_span t) Hy (Z.le_refl _)) as (row & rows & e & E).
  rewrite E. cbn [initial_span sdx sdu sdv].
  exists row, rows.
  destruct e as [s1 | w]; [ | reflexivity ].
  destruct (bottom_setup_cases t e1 e2 (classify e1 e2) s1)
    as (g' & s' & Eb & _).
  rewrite Eb.
  destruct (yloop (S fuel) (S fuel) (y2 t) (y1 t) g' s') as [rows' [s2 | w]];
    reflexivity.
Qed.

(** C10, with the pixel the code computes.  Every call of [Rasterize]
    invokes the shader at least once: the first iteration of the top-half
    loop always runs and starts with an invocation at [y = y0] with exactly
    [(u0, v0)] of the topmost vertex after sorting, at
    [x = int(float32(x0))]; this is the first invocation of the call.  The
    pixel is [(x0, y0)] whenever [|x0| < 2^24]. *)
Theorem Rasterize_first_invocation_at_top_vertex (fuel : nat) (t : verts) :
  (exists row rows,
      top_rows (Rasterize (S fuel) t)
      = (Call (F32.to_int (F32.of_int (x0 (multiSwap t))))
              (y0 (multiSwap t)) (u0 (multiSwap t)) (v0 (multiSwap t))
         :: row) :: rows /\
      trace (Rasterize (S fuel) t)
      = Call (F32.to_int (F32.of_int (x0 (multiSwap t))))
             (y0 (multiSwap t)) (u0 (multiSwap t)) (v0 (multiSwap t))
        :: (row ++ concat rows) ++ concat (bottom_rows (Rasterize (S fuel) t)))
  /\
  (Z.abs (x0 (multiSwap t)) < 2 ^ 24 ->
   F32.to_int (F32.of_int (x0 (multiSwap t))) = x0 (multiSwap t)).
Proof.
  split.
  - destruct (rasterize_sorted_first fuel (multiSwap t)) as (row & rows & E).
    { pose proof (multiSwap_sorted t). lia. }
    exists row, rows. unfold trace, Rasterize. rewrite E.
    split; reflexivity.
  - apply F32Facts.to_int_of_int.
Qed.

Lemma Rasterize_first_invocation_at_top_vertex_witness :
  F32.to_int (F32.of_int (x0 (multiSwap wedge_triangle)))
  = x0 (multiSwap wedge_triangle).
Proof.
  apply (Rasterize_first_invocation_at_top_vertex 0 wedge_triangle).
  vm_compute. reflexivity.
Defined.

(** C10 as stated fails for wide coordinates: all three vertices at
    [(2^24 + 1, 0)] give a first invocation at [x = 2^24], because
    [float32] cannot hold [2^24 + 1]. *)
Lemma first_invocation_misses_wide_vertex :
  x0 (multiSwap wide_point) = 16777217 /\
  option_map px (hd_error (trace (Rasterize 4 wide_point))) = Some 16777216.
Proof. vm_compute. split; reflexivity. Qed.

(** * Halves of zero height *)

(** A scanline loop over the single scanline [y], entered with both ends
    of the span at the same place. *)
Lemma yloop_single xfuel fuel y g s :
  y_below_max y -> F32.wf (edx s) -> sdx s = edx s ->
  yloop (S (S xfuel)) (S (S fuel)) y y g s
  = ([[Call (F32.to_int (edx s)) y (sdu s) (sdv s)]],
     Finished (advance g s)).
Proof.
  intros Hy He Hs. cbn [yloop]. rewrite Z.leb_refl.
  rewrite LoopFacts.scanline_xloop, Hs.
  rewrite LoopFacts.xloop_single by exact He.
  rewrite IntFacts.incr_below_max by exact Hy.
  destruct (Z.leb_spec (y + 1) y); [ lia | ].
  reflexivity.
Qed.

Lemma rasterize_sorted_flat_top fuel t :
  y_below_max (y0 t) -> y2 t = y0 t ->
  top_rows (rasterize_sorted (S (S fuel)) t)
  = [[Call (F32.to_int (F32.of_int (x0 t))) (y0 t) (u0 t) (v0 t)]].
Proof.
  intros Hy0 Hy2. unfold rasterize_sorted, edge1, edge2.
  rewrite !LoopFacts.guarded_div_edge_over.
  set (e1 := over (raw_edge1 t) (Int.sub (y2 t) (y0 t))).
  set (e2 := over (raw_edge2 t) (Int.sub (y1 t) (y0 t))).
  rewrite Hy2.
  rewrite (yloop_single fuel fuel (y0 t) (classify e1 e2) (initial_span t)
             Hy0 (F32Facts.of_int_wf _) eq_refl).
  cbn [initial_span sdx edx sdu sdv].
  match goal with
  | |- context [bottom_setup ?a ?b ?c ?d ?e] =>
      destruct (bottom_setup_cases a b c d e) as (g' & s' & Eb & _)
  end.
  rewrite Eb.
  destruct (yloop (S (S fuel)) (S (S fuel)) (y0 t) (y1 t) g' s')
    as [rows' [s2 | w]]; reflexivity.
Qed.

(** C6, as the code has it.  Both scanline loops include their last
    scanline, so a half of zero height still runs its loop once.  For [y]
    coordinates below the largest [int]: when [y2 = y0] after sorting, the
    top-half loop makes exactly one iteration, which makes exactly one
    shader invocation, at vertex 0; when [y1 = y2] after sorting, the call
    finishes and the bottom-half loop makes exactly one iteration. *)
Theorem zero_height_half_runs_one_scanline (t : verts) :
  ys_below_max t ->
  (y2 (multiSwap t) = y0 (multiSwap t) ->
   forall fuel,
     top_rows (Rasterize (S (S fuel)) t)
     = [[Call (F32.to_int (F32.of_int (x0 (multiSwap t))))
              (y0 (multiSwap t)) (u0 (multiSwap t)) (v0 (multiSwap t))]]) /\
  (y1 (multiSwap t) = y2 (multiSwap t) ->
   exists n : nat,
     forall fuel, (n <= fuel)%nat ->
       outcome (Rasterize fuel t) = Finished tt /\
       length (bottom_rows (Rasterize fuel t)) = 1%nat).
Proof.
  intros Hy. pose proof (multiSwap_ys_below_max t Hy) as Hy'. split.
  - intros E fuel. unfold Rasterize.
    apply rasterize_sorted_flat_top; [ apply Hy' | exact E ].
  - intros E. exists (Z.to_nat (2 ^ 64)). intros fuel Hf.
    assert (Hf' : 2 ^ 64 <= Z.of_nat fuel) by lia.
    pose proof (rasterize_sorted_finishes fuel (multiSwap t) Hy'
                  (multiSwap_sorted t) Hf') as (A & _ & C & _).
    unfold Rasterize. split; [ exact A | lia ].
Qed.

Lemma zero_height_half_runs_one_scanline_witness :
  top_rows (Rasterize 2 flat_top_triangle)
  = [[Call (F32.to_int (F32.of_int (x0 (multiSwap flat_top_triangle))))
           (y0 (multiSwap flat_top_triangle))
           (u0 (multiSwap flat_top_triangle))
           (v0 (multiSwap flat_top_triangle))]].
Proof.
  assert (Hy : ys_below_max flat_top_triangle).
  { unfold ys_below_max, y_below_max. repeat split; vm_compute; congruence. }
  destruct (zero_height_half_runs_one_scanline flat_top_triangle Hy)
    as [Htop _].
  apply Htop. vm_compute. reflexivity.
Defined.

(** C6 as stated fails for the flat-top triangle [(0,0) (4,0) (0,4)],
    where [y2 - y0 = 0] after sorting and the top-half loop invokes the
    shader once, and for the flat-bottom triangle [(0,0) (0,4) (4,4)],
    where [y1 - y2 = 0] after sorting and the bottom-half loop invokes the
    shader five times. *)
Lemma zero_height_half_still_shades :
  Int.sub (y2 (multiSwap flat_top_triangle)) (y0 (multiSwap flat_top_triangle))
  = 0 /\
  length (concat (top_rows (Rasterize 16 flat_top_triangle))) = 1%nat /\
  Int.sub (y1 (multiSwap flat_bottom_triangle))
          (y2 (multiSwap flat_bottom_triangle)) = 0 /\
  length (concat (bottom_rows (Rasterize 16 flat_bottom_triangle))) = 5%nat.
Proof. vm_compute. repeat split. Qed.


(** * Further properties of the scan *)

Lemma StronglySorted_app {A : Type} (R : A -> A -> Prop) (l1 l2 : list A) :
  StronglySorted R l1 -> StronglySorted R l2 ->
  (forall a b, In a l1 -> In b l2 -> R a b) ->
  StronglySorted R (l1 ++ l2).
Proof.
  induction l1 as [ | a l1 IH ]; intros H1 H2 H12; cbn [app]; [ exact H2 | ].
  apply StronglySorted_inv in H1. destruct H1 as [H1 Ha].
  constructor.
  - apply IH; [ exact H1 | exact H2 | ].
    intros c d Hc Hd. apply H12; [ right; exact Hc | exact Hd ].
  - apply Forall_app. split; [ exact Ha | ].
    apply Forall_forall. intros d Hd. apply H12; [ left; reflexivity | exact Hd ].
Qed.

Lemma xloop_row_sorted fuel :
  forall y x e pu_ pv_ dU dV,
    Int.min_int <= x -> F32.to_int e < Int.max_int ->
    Forall (fun c => py c = y /\ x <= px c)
           (fst (xloop fuel y x e pu_ pv_ dU dV)) /\
    StronglySorted before (fst (xloop fuel y x e pu_ pv_ dU dV)).
Proof.
  induction fuel as [ | k IH ]; intros y x e pu_ pv_ dU dV Hx He; cbn [xloop].
  - cbn [fst]. split; constructor.
  - destruct (Z.leb_spec x (F32.to_int e)); [ | cbn [fst]; split; constructor ].
    rewrite IntFacts.incr_below_max by lia.
    destruct (IH y (x + 1) e (F32.add pu_ dU) (F32.add pv_ dV) dU dV
                 ltac:(lia) He) as [Hall Hsort].
    destruct (xloop k y (x + 1) e _ _ dU dV) as [row r]. cbn [fst] in *.
    split.
    + constructor; [ cbn; lia | ].
      eapply Forall_impl; [ | exact Hall ]. cbn. intros c Hc. lia.
    + constructor; [ exact Hsort | ].
      eapply Forall_impl; [ | exact Hall ].
      cbn beta. intros c Hc. unfold before. cbn [px py]. lia.
Qed.

Lemma yloop_span_wf fuel :
  forall xfuel y hi g s s',
    wf_slopes g -> wf_span s ->
    snd (yloop xfuel fuel y hi g s) = Finished s' -> wf_span s'.
Proof.
  induction fuel as [ | k IH ]; intros xfuel y hi g s s' Hg Hs; cbn [yloop].
  - cbn. discriminate.
  - destruct (y <=? hi).
    + destruct (scanline xfuel y s) as [row [ [] | w ]];
        [ | cbn; discriminate ].
      specialize (IH xfuel (Int.incr y) hi g (advance g s) s' Hg
                     (LoopFacts.advance_wf g s Hg Hs)).
      destruct (yloop xfuel k (Int.incr y) hi g (advance g s)) as [rows r].
      exact IH.
    + cbn. intros E. injection E as <-. exact Hs.
Qed.

Lemma yloop_rows_sorted fuel :
  forall xfuel y hi g s,
    Int.min_int <= y -> hi < Int.max_int -> wf_slopes g -> wf_span s ->
    Forall (fun c => y <= py c <= hi)
           (concat (fst (yloop xfuel fuel y hi g s))) /\
    StronglySorted before (concat (fst (yloop xfuel fuel y hi g s))).
Proof.
  induction fuel as [ | k IH ]; intros xfuel y hi g s Hy Hhi Hg Hs;
    cbn [yloop].
  - cbn. split; constructor.
  - destruct (Z.leb_spec y hi); [ | cbn; split; constructor ].
    rewrite LoopFacts.scanline_xloop.
    destruct Hs as [Hsx Hex].
    pose proof (F32Facts.to_int_range _ Hsx) as Rs.
    pose proof (F32Facts.to_int_range _ Hex) as Re.
    destruct (xloop_row_sorted xfuel y (F32.to_int (sdx s)) (edx s)
                (sdu s) (sdv s) (fst (deltas s)) (snd (deltas s))
                ltac:(lia) ltac:(lia)) as [Hrow Hrs].
    destruct (xloop xfuel y _ (edx s) _ _ _ _) as [row [ [] | w ]];
      cbn [fst] in Hrow, Hrs.
    + rewrite IntFacts.incr_below_max by lia.
      destruct (IH xfuel (y + 1) hi g (advance g s) ltac:(lia) Hhi Hg
                   (LoopFacts.advance_wf g s Hg (conj Hsx Hex)))
        as [Hall Hsort].
      destruct (yloop xfuel k (y + 1) hi g (advance g s)) as [rows r].
      cbn [fst concat] in *. split.
      * apply Forall_app. split.
        -- eapply Forall_impl; [ | exact Hrow ]. cbn. intros c Hc. lia.
        -- eapply Forall_impl; [ | exact Hall ]. cbn. intros c Hc. lia.
      * apply StronglySorted_app; [ exact Hrs | exact Hsort | ].
        intros a b Ha Hb.
        rewrite Forall_forall in Hrow, Hall.
        specialize (Hrow a Ha). specialize (Hall b Hb). cbn in Hall.
        unfold before. lia.
    + cbn [fst concat]. rewrite app_nil_r. split; [ | exact Hrs ].
      eapply Forall_impl; [ | exact Hrow ]. cbn. intros c Hc. lia.
Qed.

(** The rows of the two halves of a run are rows of the two scanline
    loops, whatever the fuel. *)
Lemma rasterize_sorted_rows fuel t :
  top_rows (rasterize_sorted fuel t)
  = fst (yloop fuel fuel (y0 t) (y2 t)
               (classify (over (raw_edge1 t) (Int.sub (y2 t) (y0 t)))
                         (over (raw_edge2 t) (Int.sub (y1 t) (y0 t))))
               (initial_span t)) /\
  (bottom_rows (rasterize_sorted fuel t) = [] \/
   exists g' s',
     wf_slopes g' /\ wf_span s' /\
     bottom_rows (rasterize_sorted fuel t)
     = fst (yloop fuel fuel (y2 t) (y1 t) g' s')).
Proof.
  unfold rasterize_sorted, edge1, edge2.
  rewrite !LoopFacts.guarded_div_edge_over.
  pose proof (top_slopes_wf t) as Hg.
  set (e1 := over (raw_edge1 t) (Int.sub (y2 t) (y0 t))) in *.
  set (e2 := over (raw_edge2 t) (Int.sub (y1 t) (y0 t))) in *.
  pose proof (fun s' => yloop_span_wf fuel fuel (y0 t) (y2 t)
                          (classify e1 e2) (initial_span t) s' Hg
                          (LoopFacts.initial_span_wf t)) as Hw.
  destruct (yloop fuel fuel (y0 t) (y2 t) (classify e1 e2) (initial_span t))
    as [rows [s1 | w]]; cbn [fst snd] in *.
  2: { split; [ reflexivity | left; reflexivity ]. }
  specialize (Hw s1 eq_refl).
  destruct (bottom_setup_cases t e1 e2 (classify e1 e2) s1)
    as (g' & s' & Eb & _).
  destruct (bottom_setup_wf _ _ _ _ _ _ _ Hg Hw Eb) as [Hg' Hs'].
  rewrite Eb.
  destruct (yloop fuel fuel (y2 t) (y1 t) g' s') as [rows' r] eqn:E'.
  assert (Hr : rows' = fst (yloop fuel fuel (y2 t) (y1 t) g' s'))
    by (rewrite E'; reflexivity).
  destruct r as [s2 | w]; cbn [top_rows bottom_rows];
    (split; [ reflexivity | right; exists g', s'; auto ]).
Qed.

Lemma Rasterize_halves fuel t :
  ys_below_max t ->
  (Forall (fun c => y0 (multiSwap t) <= py c <= y2 (multiSwap t))
          (concat (top_rows (Rasterize fuel t))) /\
   StronglySorted before (concat (top_rows (Rasterize fuel t)))) /\
  (Forall (fun c => y2 (multiSwap t) <= py c <= y1 (multiSwap t))
          (concat (bottom_rows (Rasterize fuel t))) /\
   StronglySorted before (concat (bottom_rows (Rasterize fuel t)))).
Proof.
  intros Hy. apply multiSwap_ys_below_max in Hy.
  destruct Hy as (H0 & H1 & H2). unfold y_below_max in *.
  unfold Rasterize.
  destruct (rasterize_sorted_rows fuel (multiSwap t)) as [Et Eb].
  split.
  - rewrite Et. apply yloop_rows_sorted; try lia.
    + apply top_slopes_wf.
    + apply LoopFacts.initial_span_wf.
  - destruct Eb as [Eb | (g' & s' & Hg' & Hs' & Eb)]; rewrite Eb.
    + cbn. split; constructor.
    + apply yloop_rows_sorted; try lia; assumption.
Qed.

Lemma filter_none {A : Type} (f : A -> bool) (l : list A) :
  Forall (fun a => f a = false) l -> filter f l = [].
Proof.
  induction 1 as [ | a l Ha _ IH ]; cbn [filter]; [ reflexivity | ].
  rewrite Ha. exact IH.
Qed.

Lemma sorted_visits_le_1 l a b :
  StronglySorted before l -> (length (filter (at_pixel a b) l) <= 1)%nat.
Proof.
  induction 1 as [ | c l Hs IH Hc ]; cbn [filter]; [ cbn; lia | ].
  destruct (at_pixel a b c) eqn:E; [ | exact IH ].
  rewrite filter_none; [ cbn; lia | ].
  unfold at_pixel in E. apply andb_true_iff in E. destruct E as [Ex Ey].
  apply Z.eqb_eq in Ex. apply Z.eqb_eq in Ey.
  eapply Forall_impl; [ | exact Hc ].
  intros d Hd. unfold before in Hd. unfold at_pixel.
  apply andb_false_iff.
  destruct (Z.eqb_spec (px d) a); [ right | left; reflexivity ].
  apply Z.eqb_neq. lia.
Qed.

Lemma rows_off_scanline l a b :
  Forall (fun c => py c <> b) l -> filter (at_pixel a b) l = [].
Proof.
  intros H. apply filter_none. eapply Forall_impl; [ | exact H ].
  intros c Hc. unfold at_pixel. apply andb_false_iff. right.
  apply Z.eqb_neq. exact Hc.
Qed.

(** X1.  For [y] coordinates below the largest [int], each half of a call
    makes its invocations in scan order: rows by ascending [y], and by
    ascending [x] within a row; this holds for every prefix of the run. *)
Theorem Rasterize_invokes_in_scan_order (fuel : nat) (t : verts) :
  ys_below_max t ->
  StronglySorted before (concat (top_rows (Rasterize fuel t))) /\
  StronglySorted before (concat (bottom_rows (Rasterize fuel t))).
Proof.
  intros Hy. destruct (Rasterize_halves fuel t Hy) as [[_ Ht] [_ Hb]].
  split; assumption.
Qed.

Lemma Rasterize_invokes_in_scan_order_witness :
  StronglySorted before (concat (top_rows (Rasterize 32 wedge_triangle))) /\
  StronglySorted before (concat (bottom_rows (Rasterize 32 wedge_triangle))).
Proof.
  apply (Rasterize_invokes_in_scan_order 32 wedge_triangle).
  unfold ys_below_max, y_below_max.
  repeat split; vm_compute; congruence.
Defined.

(** X2.  For [y] coordinates below the largest [int], the shader is never
    invoked above the topmost or below the bottommost vertex: the top half
    stays within [y0 .. y2] and the bottom half within [y2 .. y1] of the
    sorted vertices. *)
Theorem Rasterize_stays_in_vertical_extent (fuel : nat) (t : verts) :
  ys_below_max t ->
  Forall (fun c => y0 (multiSwap t) <= py c <= y2 (multiSwap t))
         (concat (top_rows (Rasterize fuel t))) /\
  Forall (fun c => y2 (multiSwap t) <= py c <= y1 (multiSwap t))
         (concat (bottom_rows (Rasterize fuel t))) /\
  Forall (fun c => y0 (multiSwap t) <= py c <= y1 (multiSwap t))
         (trace (Rasterize fuel t)).
Proof.
  intros Hy. destruct (Rasterize_halves fuel t Hy) as [[Ht _] [Hb _]].
  pose proof (multiSwap_sorted t) as Hs.
  split; [ exact Ht | split; [ exact Hb | ] ].
  unfold trace. apply Forall_app. split.
  - eapply Forall_impl; [ | exact Ht ]. cbn beta. intros c Hc. lia.
  - eapply Forall_impl; [ | exact Hb ]. cbn beta. intros c Hc. lia.
Qed.

Lemma Rasterize_stays_in_vertical_extent_witness :
  Forall (fun c => y0 (multiSwap wedge_triangle) <= py c
                   <= y2 (multiSwap wedge_triangle))
         (concat (top_rows (Rasterize 32 wedge_triangle))) /\
  Forall (fun c => y2 (multiSwap wedge_triangle) <= py c
                   <= y1 (multiSwap wedge_triangle))
         (concat (bottom_rows (Rasterize 32 wedge_triangle))) /\
  Forall (fun c => y0 (multiSwap wedge_triangle) <= py c
                   <= y1 (multiSwap wedge_triangle))
         (trace (Rasterize 32 wedge_triangle)).
Proof.
  apply (Rasterize_stays_in_vertical_extent 32 wedge_triangle).
  unfold ys_below_max, y_below_max.
  repeat split; vm_compute; congruence.
Defined.

(** X3.  For [y] coordinates below the largest [int], a call invokes the
    shader at most twice at any pixel, at most once at a pixel off the
    scanline [y2] of the middle vertex, and never at a pixel above [y0] or
    below [y1]. *)
Theorem Rasterize_visits_pixel_at_most_twice
    (fuel : nat) (t : verts) (x y : Z) :
  ys_below_max t ->
  (visits (Rasterize fuel t) x y <= 2)%nat /\
  (y <> y2 (multiSwap t) -> (visits (Rasterize fuel t) x y <= 1)%nat) /\
  (y < y0 (multiSwap t) \/ y1 (multiSwap t) < y ->
   visits (Rasterize fuel t) x y = 0%nat).
Proof.
  intros Hy. destruct (Rasterize_halves fuel t Hy) as [[Ht St] [Hb Sb]].
  pose proof (multiSwap_sorted t) as Hs.
  pose proof (sorted_visits_le_1 _ x y St) as Lt.
  pose proof (sorted_visits_le_1 _ x y Sb) as Lb.
  unfold visits, trace. rewrite filter_app, length_app.
  split; [ lia | split ].
  - intros Hne. destruct (Z.lt_ge_cases y (y2 (multiSwap t))).
    + rewrite (rows_off_scanline (concat (bottom_rows (Rasterize fuel t)))).
      * cbn [length]. lia.
      * eapply Forall_impl; [ | exact Hb ]. cbn beta. intros c Hc. lia.
    + rewrite (rows_off_scanline (concat (top_rows (Rasterize fuel t)))).
      * cbn [length]. lia.
      * eapply Forall_impl; [ | exact Ht ]. cbn beta. intros c Hc. lia.
  - intros Hout.
    rewrite (rows_off_scanline (concat (top_rows (Rasterize fuel t)))),
            (rows_off_scanline (concat (bottom_rows (Rasterize fuel t)))).
    + reflexivity.
    + eapply Forall_impl; [ | exact Hb ]. cbn beta. intros c Hc. lia.
    + eapply Forall_impl; [ | exact Ht ]. cbn beta. intros c Hc. lia.
Qed.

Lemma Rasterize_visits_pixel_at_most_twice_witness :
  (visits (Rasterize 32 wedge_triangle) 12 5 <= 1)%nat.
Proof.
  assert (Hy : ys_below_max wedge_triangle).
  { unfold ys_below_max, y_below_max. repeat split; vm_compute; congruence. }
  destruct (Rasterize_visits_pixel_at_most_twice 32 wedge_triangle 12 5 Hy)
    as (_ & H1 & _).
  apply H1. vm_compute. congruence.
Defined.

(** * Further properties of the sort step *)

Lemma multiSwap_sorted_id t : y0 t <= y2 t <= y1 t -> multiSwap t = t.
Proof.
  destruct t as [a0 b0 a1 b1 a2 b2 p0 q0 p1 q1 p2 q2].
  cbn [x0 y0 x1 y1 x2 y2 u0 v0 u1 v1 u2 v2]. intros H.
  unfold multiSwap, swap10. cbn [x0 y0 x1 y1 x2 y2 u0 v0 u1 v1 u2 v2].
  destruct (Z.ltb_spec b1 b0); [ lia | ].
  unfold swap20. cbn [x0 y0 x1 y1 x2 y2 u0 v0 u1 v1 u2 v2].
  destruct (Z.ltb_spec b2 b0); [ lia | ].
  unfold swap21. cbn [x0 y0 x1 y1 x2 y2 u0 v0 u1 v1 u2 v2].
  destruct (Z.ltb_spec b1 b2); [ lia | ].
  reflexivity.
Qed.

(** X4.  [multiSwap] leaves its arguments as they are exactly when they
    are already in the order [y0 <= y2 <= y1]; hence sorting twice is the
    same as sorting once. *)
Theorem multiSwap_fixes_sorted_input (t : verts) :
  (multiSwap t = t <-> y0 t <= y2 t <= y1 t) /\
  multiSwap (multiSwap t) = multiSwap t.
Proof.
  split; [ split | ].
  - intros E. rewrite <- E. apply multiSwap_sorted.
  - apply multiSwap_sorted_id.
  - apply multiSwap_sorted_id, multiSwap_sorted.
Qed.

Lemma multiSwap_fixes_sorted_input_witness :
  multiSwap wedge_triangle = wedge_triangle.
Proof.
  apply (proj1 (multiSwap_fixes_sorted_input wedge_triangle)).
  vm_compute. split; congruence.
Defined.

(** * Further properties of a scanline *)






(** * A triangle collapsed to a point *)

Lemma Int_sub_diag z : Int.sub z z = 0.
Proof. unfold Int.sub. rewrite Z.sub_diag. reflexivity. Qed.

Lemma add_of_int_zero n : F32.add (F32.of_int n) F32.zero = F32.of_int n.
Proof.
  destruct (Z.eq_dec n 0) as [-> | Hn]; [ reflexivity | ].
  pose proof (F32Facts.of_int_not_zero n Hn) as Hz.
  destruct (F32.of_int n) as [s | s | | s m e]; cbn in Hz |- *;
    [ discriminate Hz | reflexivity | reflexivity | reflexivity ].
Qed.

Lemma multiSwap_point x y a0 b0 a1 b1 a2 b2 :
  multiSwap (point_triangle x y a0 b0 a1 b1 a2 b2)
  = point_triangle x y a0 b0 a1 b1 a2 b2.
Proof.
  apply multiSwap_sorted_id. cbn. lia.
Qed.

(** X6.  A triangle whose three vertices lie on the pixel [(x, y)], with
    [y] below the largest [int], makes exactly two shader invocations, both
    at [(int(float32(x)), y)]: the top-half loop passes [(u0, v0)], and the
    bottom-half loop passes [(u0 + (u1 - v0), v0 + (v1 - v0))], the left
    span end after one step of the undivided gradient of the edge from
    vertex 0 to vertex 1. *)
Theorem point_triangle_is_shaded_twice
    (fuel : nat) (x y : Z) (a0 b0 a1 b1 a2 b2 : float32) :
  y_below_max y ->
  outcome (Rasterize (S (S fuel)) (point_triangle x y a0 b0 a1 b1 a2 b2))
  = Finished tt /\
  trace (Rasterize (S (S fuel)) (point_triangle x y a0 b0 a1 b1 a2 b2))
  = [Call (F32.to_int (F32.of_int x)) y a0 b0;
     Call (F32.to_int (F32.of_int x)) y
          (F32.add a0 (F32.sub a1 b0)) (F32.add b0 (F32.sub b1 b0))].
Proof.
  intros Hy. unfold Rasterize. rewrite multiSwap_point.
  set (t := point_triangle x y a0 b0 a1 b1 a2 b2).
  assert (E1 : edge1 t = Finished (Edge F32.zero (F32.sub a2 a0) (F32.sub b2 b0))).
  { unfold edge1, guarded_div_edge, raw_edge1, t, point_triangle.
    cbn [x0 y0 x1 y1 x2 y2 u0 v0 u1 v1 u2 v2].
    rewrite !Int_sub_diag. reflexivity. }
  assert (E2 : edge2 t = Finished (Edge F32.zero (F32.sub a1 b0) (F32.sub b1 b0))).
  { unfold edge2, guarded_div_edge, raw_edge2, t, point_triangle.
    cbn [x0 y0 x1 y1 x2 y2 u0 v0 u1 v1 u2 v2].
    rewrite !Int_sub_diag. reflexivity. }
  assert (E21 : edge21 t
                = Finished (Edge F32.zero (F32.sub a1 a2) (F32.sub b1 b2))).
  { unfold edge21, guarded_div_edge, raw_edge21, t, point_triangle.
    cbn [x0 y0 x1 y1 x2 y2 u0 v0 u1 v1 u2 v2].
    rewrite !Int_sub_diag. reflexivity. }
  unfold rasterize_sorted. rewrite E1, E2.
  change (y0 t) with y. change (y1 t) with y. change (y2 t) with y.
  rewrite (yloop_single fuel fuel y _ (initial_span t) Hy
             (F32Facts.of_int_wf _) eq_refl).
  unfold bottom_setup. rewrite E21. cbn [bind dxdy].
  change (F32.ltb F32.zero F32.zero) with false. cbv iota.
  rewrite yloop_single.
  - split; [ reflexivity | ].
    unfold trace. cbn [top_rows bottom_rows concat app].
    cbn [edx sdu sdv advance initial_span classify dxldu dxldv].
    change (F32.ltb (dxdy (Edge F32.zero (F32.sub a2 a0) (F32.sub b2 b0)))
                    (dxdy (Edge F32.zero (F32.sub a1 b0) (F32.sub b1 b0))))
      with false.
    cbv iota. cbn [dxldu dxldv dxdu dxdv x0 x2 u0 v0 t point_triangle].
    reflexivity.
  - exact Hy.
  - cbn [edx]. apply F32Facts.of_int_wf.
  - cbn [sdx edx advance initial_span classify].
    change (F32.ltb (dxdy (Edge F32.zero (F32.sub a2 a0) (F32.sub b2 b0)))
                    (dxdy (Edge F32.zero (F32.sub a1 b0) (F32.sub b1 b0))))
      with false.
    cbv iota. cbn [dxldy dxdy].
    change (x2 t) with x. change (x0 t) with x.
    apply add_of_int_zero.
Qed.

Lemma point_triangle_is_shaded_twice_witness :
  trace (Rasterize 2 (point_triangle 3 4 F32.zero F32.zero F32.zero F32.zero
                                     F32.zero F32.zero))
  = [Call (F32.to_int (F32.of_int 3)) 4 F32.zero F32.zero;
     Call (F32.to_int (F32.of_int 3)) 4
          (F32.add F32.zero (F32.sub F32.zero F32.zero))
          (F32.add F32.zero (F32.sub F32.zero F32.zero))].
Proof.
  apply (point_triangle_is_shaded_twice 0 3 4).
  unfold y_below_max. split; vm_compute; congruence.
Defined.

(** * Further properties of the classification *)

Lemma ltb_asym a b : F32.ltb a b = true -> F32.ltb b a = false.
Proof.
  unfold F32.ltb, SFltb.
  destruct a as [sa | sa | | sa ma ea], b as [sb | sb | | sb mb eb];
    cbn [SFcompare]; try discriminate; try reflexivity;
    try (destruct sa; try discriminate; try reflexivity;
         destruct sb; try discriminate; reflexivity);
    try (destruct sb; try discriminate; reflexivity).
  destruct sa, sb; try discriminate; try reflexivity.
  - rewrite (Z.compare_antisym ea eb).
    destruct (ea ?= eb) eqn:Ee; cbn [CompOpp]; try discriminate;
      try reflexivity.
    change (Pos.compare_cont Eq mb ma) with (Pos.compare mb ma).
    change (Pos.compare_cont Eq ma mb) with (Pos.compare ma mb).
    rewrite (Pos.compare_antisym ma mb).
    destruct (ma ?= mb)%positive; cbn [CompOpp]; try discriminate;
      reflexivity.
  - rewrite (Z.compare_antisym ea eb).
    destruct (ea ?= eb) eqn:Ee; cbn [CompOpp]; try discriminate;
      try reflexivity.
    change (Pos.compare_cont Eq mb ma) with (Pos.compare mb ma).
    change (Pos.compare_cont Eq ma mb) with (Pos.compare ma mb).
    rewrite (Pos.compare_antisym ma mb).
    destruct (ma ?= mb)%positive; cbn [CompOpp]; try discriminate;
      reflexivity.
Qed.

(** X7.  The classification hands the two gradient triples out whole, one
    to each side, and never gives the left side an [x] gradient that is
    larger than the one of the right side. *)
Theorem classify_keeps_left_gradient_smaller (e1 e2 : edge) :
  F32.ltb (dxrdy (classify e1 e2)) (dxldy (classify e1 e2)) = false /\
  ((slope_of Left (classify e1 e2) = e1 /\
    slope_of Right (classify e1 e2) = e2) \/
   (slope_of Left (classify e1 e2) = e2 /\
    slope_of Right (classify e1 e2) = e1)).
Proof.
  destruct e1 as [a1 b1 c1], e2 as [a2 b2 c2]. unfold classify.
  cbn [dxdy dxdu dxdv].
  destruct (F32.ltb a1 a2) eqn:E; cbn [dxldy dxrdy slope_of dxldu dxrdu
                                        dxldv dxrdv].
  - split; [ apply ltb_asym; exact E | left; split; reflexivity ].
  - split; [ exact E | right; split; reflexivity ].
Qed.

(** * Further properties of the default shader *)

(** The shape of the conversion of a positive integer of fewer than 25
    bits: a mantissa of exactly 24 digits and an exponent that undoes the
    normalisation. *)
Lemma of_int_pos_shape p :
  Zpos p < 2 ^ 24 ->
  exists mz ez,
    F32.of_int (Zpos p) = S754_finite false mz ez /\
    digits2_pos mz = 24%positive /\ -23 <= ez <= 0.
Proof.
  intros Hp. unfold F32.of_int, F32.lit, binary_normalize, binary_round.
  pose proof (F32Facts.digits2_pos_bounds p) as Hd.
  assert (Hd24 : Zpos (digits2_pos p) <= 24).
  { destruct (Z.le_gt_cases (Zpos (digits2_pos p)) 24) as [ | Hgt ];
      [ assumption | ].
    assert (2 ^ 24 <= 2 ^ (Zpos (digits2_pos p) - 1))
      by (apply Z.pow_le_mono_r; lia).
    lia. }
  assert (Hf : fexp F32.prec F32.emax (Zpos (digits2_pos p) + 0)
               = Zpos (digits2_pos p) - 24).
  { unfold fexp, SpecFloat.emin, F32.prec, F32.emax. lia. }
  rewrite Hf. unfold shl_align.
  destruct (Zpos (digits2_pos p) - 24 - 0) as [ | k | k ] eqn:Ek; try lia.
  - exists p, 0. split; [ | split; lia ].
    apply F32Facts.binary_round_aux_exact; lia.
  - exists (Pos.iter xO p k), (Zpos (digits2_pos p) - 24).
    assert (Hk : digits2_pos (Pos.iter xO p k) = 24%positive)
      by (rewrite F32Facts.iter_xO_digits; lia).
    split; [ | split; [ exact Hk | lia ] ].
    apply F32Facts.binary_round_aux_exact; [ exact Hk | lia ].
Qed.

(** Multiplying by [1.0] changes no float32 of that shape. *)
Lemma mul_one_exact mz ez :
  digits2_pos mz = 24%positive -> -23 <= ez <= 0 ->
  F32.mul (F32.of_int 1) (S754_finite false mz ez) = S754_finite false mz ez.
Proof.
  intros Hd He.
  change (F32.of_int 1) with (S754_finite false 8388608 (-23)).
  unfold F32.mul. cbn [SFmul xorb Pos.mul].
  unfold binary_round_aux, shr_fexp.
  cbn [Zdigits2 digits2_pos]. rewrite Hd. cbn [Pos.succ].
  replace (fexp F32.prec F32.emax (47 + (-23 + ez)) - (-23 + ez)) with 23
    by (unfold fexp, SpecFloat.emin, F32.prec, F32.emax; lia).
  cbn [shr shr_record_of_loc iter_pos shr_1 orb shr_m loc_of_shr_record
       round_nearest_even Zdigits2].
  rewrite Hd.
  replace (fexp F32.prec F32.emax (24 + (-23 + ez + 23)) - (-23 + ez + 23))
    with 0
    by (unfold fexp, SpecFloat.emin, F32.prec, F32.emax; lia).
  cbn [shr shr_record_of_loc shr_m].
  replace (-23 + ez + 23) with ez by lia.
  replace (ez <=? F32.emax - F32.prec) with true; [ reflexivity | ].
  symmetry. apply Z.leb_le. unfold F32.emax, F32.prec. lia.
Qed.

Lemma to_int_mul_one m :
  0 <= m < 2 ^ 24 -> F32.to_int (F32.mul (F32.of_int 1) (F32.of_int m)) = m.
Proof.
  intros Hm. destruct m as [ | p | p ]; [ reflexivity | | lia ].
  destruct (of_int_pos_shape p ltac:(lia)) as (mz & ez & E & Hd & He).
  rewrite <- (F32Facts.to_int_of_int (Zpos p)) at 2 by lia.
  rewrite E, mul_one_exact by assumption. reflexivity.
Qed.

Lemma to_int_mul_zero f : F32.to_int (F32.mul F32.zero f) <= 0.
Proof.
  destruct f as [s | s | | s m e]; cbn; lia.
Qed.

(** X8.  For a texture of at most [2^24] columns and rows, the default
    shader reads the first texel for [u = v = 0] and the last texel,
    [(maxX, maxY)], for [u = v = 1]. *)
Theorem default_shader_reaches_both_corners
    {Tex Img Color : Type} `{Image Tex Color} `{DrawImage Img Color}
    (target : Img) (texture : Tex) (x y : Z) :
  0 <= maxX texture < 2 ^ 24 -> 0 <= maxY texture < 2 ^ 24 ->
  NewDefaultShader texture x y F32.zero F32.zero target
  = Set_ target x y (At texture 0 0) /\
  NewDefaultShader texture x y (F32.of_int 1) (F32.of_int 1) target
  = Set_ target x y (At texture (maxX texture) (maxY texture)).
Proof.
  intros Hx Hy. unfold NewDefaultShader, texel. split.
  - pose proof (to_int_mul_zero (F32.of_int (maxX texture))) as Zx.
    pose proof (to_int_mul_zero (F32.of_int (maxY texture))) as Zy.
    rewrite !clamp_min_max by lia.
    replace (Z.max 0 (Z.min (F32.to_int (F32.mul F32.zero
                                          (F32.of_int (maxX texture))))
                            (maxX texture))) with 0 by lia.
    replace (Z.max 0 (Z.min (F32.to_int (F32.mul F32.zero
                                          (F32.of_int (maxY texture))))
                            (maxY texture))) with 0 by lia.
    reflexivity.
  - rewrite !to_int_mul_one by assumption.
    rewrite !clamp_min_max by lia.
    replace (Z.max 0 (Z.min (maxX texture) (maxX texture)))
      with (maxX texture) by lia.
    replace (Z.max 0 (Z.min (maxY texture) (maxY texture)))
      with (maxY texture) by lia.
    reflexivity.
Qed.

Lemma default_shader_reaches_both_corners_witness :
  NewDefaultShader texture4 2 5 (F32.of_int 1) (F32.of_int 1) blank
  = Set_ blank 2 5 (At texture4 (maxX texture4) (maxY texture4)).
Proof.
  assert (Hx : 0 <= maxX texture4 < 2 ^ 24)
    by (split; vm_compute; congruence).
  assert (Hy : 0 <= maxY texture4 < 2 ^ 24)
    by (split; vm_compute; congruence).
  pose proof (default_shader_reaches_both_corners blank texture4 2 5 Hx Hy)
    as [_ E].
  exact E.
Defined.

(** * Scanlines and vertical translation *)

Lemma yloop_rows_from fuel :
  forall xfuel y hi g s,
    Int.min_int <= y -> hi < Int.max_int -> wf_slopes g -> wf_span s ->
    rows_from y (fst (yloop xfuel fuel y hi g s)).
Proof.
  induction fuel as [ | k IH ]; intros xfuel y hi g s Hy Hhi Hg Hs;
    cbn [yloop].
  - exact I.
  - destruct (Z.leb_spec y hi); [ | exact I ].
    rewrite LoopFacts.scanline_xloop.
    destruct Hs as [Hsx Hex].
    pose proof (F32Facts.to_int_range _ Hsx) as Rs.
    pose proof (F32Facts.to_int_range _ Hex) as Re.
    destruct (xloop_row_sorted xfuel y (F32.to_int (sdx s)) (edx s)
                (sdu s) (sdv s) (fst (deltas s)) (snd (deltas s))
                ltac:(lia) ltac:(lia)) as [Hrow _].
    assert (Hrow' : Forall (fun c => py c = y)
                           (fst (xloop xfuel y (F32.to_int (sdx s)) (edx s)
                                       (sdu s) (sdv s) (fst (deltas s))
                                       (snd (deltas s))))).
    { eapply Forall_impl; [ | exact Hrow ]. cbn beta. intros c Hc. lia. }
    clear Hrow.
    destruct (xloop xfuel y _ (edx s) _ _ _ _) as [row [ [] | w ]];
      cbn [fst] in Hrow'.
    + rewrite IntFacts.incr_below_max by lia.
      specialize (IH xfuel (y + 1) hi g (advance g s) ltac:(lia) Hhi Hg
                     (LoopFacts.advance_wf g s Hg (conj Hsx Hex))).
      destruct (yloop xfuel k (y + 1) hi g (advance g s)) as [rows r].
      cbn [fst rows_from] in *. split; assumption.
    + cbn [fst rows_from]. split; [ exact Hrow' | exact I ].
Qed.

(** X9.  For [y] coordinates below the largest [int], the rows of the top
    half lie on the consecutive scanlines [y0, y0 + 1, ...] and the rows of
    the bottom half on [y2, y2 + 1, ...] of the sorted vertices: no
    scanline is skipped and none is repeated within a half. *)
Theorem Rasterize_rows_on_consecutive_scanlines (fuel : nat) (t : verts) :
  ys_below_max t ->
  rows_from (y0 (multiSwap t)) (top_rows (Rasterize fuel t)) /\
  rows_from (y2 (multiSwap t)) (bottom_rows (Rasterize fuel t)).
Proof.
  intros Hy. apply multiSwap_ys_below_max in Hy.
  destruct Hy as (H0 & H1 & H2). unfold y_below_max in *.
  pose proof (multiSwap_sorted t) as Hs.
  unfold Rasterize.
  destruct (rasterize_sorted_rows fuel (multiSwap t)) as [Et Eb].
  split.
  - rewrite Et. apply yloop_rows_from; try lia.
    + apply top_slopes_wf.
    + apply LoopFacts.initial_span_wf.
  - destruct Eb as [Eb | (g' & s' & Hg' & Hs' & Eb)]; rewrite Eb.
    + exact I.
    + apply yloop_rows_from; try lia; assumption.
Qed.

Lemma Rasterize_rows_on_consecutive_scanlines_witness :
  rows_from (y0 (multiSwap wedge_triangle))
            (top_rows (Rasterize 32 wedge_triangle)) /\
  rows_from (y2 (multiSwap wedge_triangle))
            (bottom_rows (Rasterize 32 wedge_triangle)).
Proof.
  apply (Rasterize_rows_on_consecutive_scanlines 32 wedge_triangle).
  unfold ys_below_max, y_below_max.
  repeat split; vm_compute; congruence.
Defined.

Lemma xloop_shift k fuel :
  forall y x e pu_ pv_ dU dV,
    xloop fuel (y + k) x e pu_ pv_ dU dV
    = (map (shift_call k) (fst (xloop fuel y x e pu_ pv_ dU dV)),
       snd (xloop fuel y x e pu_ pv_ dU dV)).
Proof.
  induction fuel as [ | n IH ]; intros y x e pu_ pv_ dU dV; cbn [xloop].
  - reflexivity.
  - destruct (x <=? F32.to_int e); [ | reflexivity ].
    rewrite IH.
    destruct (xloop n y (Int.incr x) e _ _ dU dV) as [row r].
    reflexivity.
Qed.

Lemma yloop_shift k fuel :
  forall xfuel y hi g s,
    Int.min_int <= y -> hi < Int.max_int ->
    Int.min_int <= y + k -> hi + k < Int.max_int ->
    yloop xfuel fuel (y + k) (hi + k) g s
    = (map (map (shift_call k)) (fst (yloop xfuel fuel y hi g s)),
       snd (yloop xfuel fuel y hi g s)).
Proof.
  induction fuel as [ | n IH ]; intros xfuel y hi g s Hy Hhi Hyk Hhik;
    cbn [yloop].
  - reflexivity.
  - destruct (Z.leb_spec (y + k) (hi + k)), (Z.leb_spec y hi); try lia;
      [ | reflexivity ].
    rewrite !LoopFacts.scanline_xloop, xloop_shift.
    destruct (xloop xfuel y _ (edx s) _ _ _ _) as [row [ [] | w ]];
      cbn [fst snd]; [ | reflexivity ].
    rewrite !IntFacts.incr_below_max by lia.
    replace (y + k + 1) with (y + 1 + k) by lia.
    rewrite IH by lia.
    destruct (yloop xfuel n (y + 1) hi g (advance g s)) as [rows r].
    reflexivity.
Qed.

Lemma multiSwap_shift_y k t :
  multiSwap (shift_y k t) = shift_y k (multiSwap t).
Proof.
  destruct t as [a0 b0 a1 b1 a2 b2 p0 q0 p1 q1 p2 q2].
  unfold shift_y, multiSwap, swap10.
  cbn [x0 y0 x1 y1 x2 y2 u0 v0 u1 v1 u2 v2].
  repeat
    (match goal with
     | |- context [?a <? ?b] => destruct (Z.ltb_spec a b)
     end;
     unfold swap20, swap21, swap10, swapInt, swapFloat32;
     cbn [x0 y0 x1 y1 x2 y2 u0 v0 u1 v1 u2 v2] in *);
    first [ reflexivity | lia ].
Qed.

Lemma Int_sub_shift a b k : Int.sub (a + k) (b + k) = Int.sub a b.
Proof. unfold Int.sub. f_equal. lia. Qed.

Lemma rasterize_sorted_shift_y k fuel t :
  ys_below_max t -> ys_below_max (shift_y k t) -> y0 t <= y2 t <= y1 t ->
  rasterize_sorted fuel (shift_y k t) = shift_run k (rasterize_sorted fuel t).
Proof.
  intros (H0 & H1 & H2) (K0 & K1 & K2) Hs.
  unfold y_below_max in *. cbn [shift_y y0 y1 y2] in K0, K1, K2.
  assert (E1 : edge1 (shift_y k t) = edge1 t).
  { unfold edge1, raw_edge1, shift_y.
    cbn [x0 y0 x1 y1 x2 y2 u0 v0 u1 v1 u2 v2].
    rewrite Int_sub_shift. reflexivity. }
  assert (E2 : edge2 (shift_y k t) = edge2 t).
  { unfold edge2, raw_edge2, shift_y.
    cbn [x0 y0 x1 y1 x2 y2 u0 v0 u1 v1 u2 v2].
    rewrite Int_sub_shift. reflexivity. }
  assert (Eb : forall e1 e2 g s,
             bottom_setup (shift_y k t) e1 e2 g s = bottom_setup t e1 e2 g s).
  { intros e1 e2 g s. unfold bottom_setup, edge21, raw_edge21, shift_y.
    cbn [x0 y0 x1 y1 x2 y2 u0 v0 u1 v1 u2 v2].
    rewrite Int_sub_shift. reflexivity. }
  unfold rasterize_sorted. rewrite E1, E2.
  destruct (edge1 t) as [e1 | w]; [ | reflexivity ].
  destruct (edge2 t) as [e2 | w]; [ | reflexivity ].
  change (initial_span (shift_y k t)) with (initial_span t).
  change (y0 (shift_y k t)) with (y0 t + k).
  change (y1 (shift_y k t)) with (y1 t + k).
  change (y2 (shift_y k t)) with (y2 t + k).
  rewrite yloop_shift by lia.
  destruct (yloop fuel fuel (y0 t) (y2 t) (classify e1 e2) (initial_span t))
    as [rows [s1 | w]]; cbn [fst snd]; [ | reflexivity ].
  rewrite Eb.
  destruct (bottom_setup t e1 e2 (classify e1 e2) s1) as [[g' s'] | w];
    [ | reflexivity ].
  rewrite yloop_shift by lia.
  destruct (yloop fuel fuel (y2 t) (y1 t) g' s') as [rows' [s2 | w]];
    reflexivity.
Qed.

(** X10.  Moving a triangle down by [k] scanlines, with all [y]
    coordinates below the largest [int] before and after the move, moves
    every invocation down by [k] scanlines and changes nothing else:
    neither the pixels' [x], nor their [u] and [v], nor their order. *)
Theorem Rasterize_commutes_with_vertical_shift
    (k : Z) (fuel : nat) (t : verts) :
  ys_below_max t -> ys_below_max (shift_y k t) ->
  Rasterize fuel (shift_y k t) = shift_run k (Rasterize fuel t).
Proof.
  intros Hy Hk. unfold Rasterize. rewrite multiSwap_shift_y.
  apply rasterize_sorted_shift_y.
  - apply multiSwap_ys_below_max. exact Hy.
  - rewrite <- multiSwap_shift_y. apply multiSwap_ys_below_max. exact Hk.
  - apply multiSwap_sorted.
Qed.

Lemma Rasterize_commutes_with_vertical_shift_witness :
  Rasterize 32 (shift_y (-5) wedge_triangle)
  = shift_run (-5) (Rasterize 32 wedge_triangle).
Proof.
  apply (Rasterize_commutes_with_vertical_shift (-5) 32 wedge_triangle);
    unfold ys_below_max, y_below_max;
    repeat split; vm_compute; congruence.
Defined.

(** * Forward differences *)

(** X11.  The span ends are accumulated, not recomputed: a scanline loop
    that runs from [y] to [hi], both below the largest [int], leaves the
    span it started with advanced by its gradients once per scanline,
    [hi - y + 1] times in all.  The bottom half therefore starts from the
    span of the top half advanced [y2 - y0 + 1] times. *)
Theorem yloop_advances_span_once_per_scanline
    (y hi : Z) (g : slopes) (s : span) :
  Int.min_int <= y -> hi < Int.max_int -> wf_slopes g -> wf_span s ->
  exists n0 : nat,
    forall fuel, (n0 <= fuel)%nat ->
      snd (yloop fuel fuel y hi g s)
      = Finished (Nat.iter (Z.to_nat (hi - y + 1)) (advance g) s).
Proof.
  intros Hy Hhi Hg Hs. exists (Z.to_nat (2 ^ 64)). intros fuel Hf.
  unfold Int.min_int, Int.max_int in *.
  destruct (LoopFacts.yloop_finishes (Z.to_nat (hi - y + 1)) fuel fuel
              y hi g s) as (rows & E & _);
    unfold Int.min_int, Int.max_int; try lia; try assumption.
  rewrite E. reflexivity.
Qed.

Lemma yloop_advances_span_once_per_scanline_witness :
  exists n0 : nat,
    forall fuel, (n0 <= fuel)%nat ->
      snd (yloop fuel fuel 0 4
                 (classify (Edge (F32.of_int 4) F32.zero F32.zero)
                           (Edge (F32.of_int 2) F32.zero F32.zero))
                 (initial_span wedge_triangle))
      = Finished
          (Nat.iter (Z.to_nat (4 - 0 + 1))
                    (advance
                       (classify (Edge (F32.of_int 4) F32.zero F32.zero)
                                 (Edge (F32.of_int 2) F32.zero F32.zero)))
                    (initial_span wedge_triangle)).
Proof.
  apply (yloop_advances_span_once_per_scanline 0 4).
  - vm_compute. congruence.
  - vm_compute. reflexivity.
  - split; vm_compute; reflexivity.
  - split; vm_compute; exact I.
Defined.

(** * Texture coordinates and coverage *)

Lemma xloop_pixels fuel :
  forall y x e pu_ pv_ dU dV pu' pv' dU' dV',
    map pixel (fst (xloop fuel y x e pu_ pv_ dU dV))
    = map pixel (fst (xloop fuel y x e pu' pv' dU' dV')) /\
    snd (xloop fuel y x e pu_ pv_ dU dV)
    = snd (xloop fuel y x e pu' pv' dU' dV').
Proof.
  induction fuel as [ | k IH ]; intros y x e pu_ pv_ dU dV pu' pv' dU' dV';
    cbn [xloop].
  - split; reflexivity.
  - destruct (x <=? F32.to_int e); [ | split; reflexivity ].
    specialize (IH y (Int.incr x) e (F32.add pu_ dU) (F32.add pv_ dV) dU dV
                   (F32.add pu' dU') (F32.add pv' dV') dU' dV').
    destruct (xloop k y (Int.incr x) e (F32.add pu_ dU) _ dU dV) as [row r].
    destruct (xloop k y (Int.incr x) e (F32.add pu' dU') _ dU' dV')
      as [row' r'].
    cbn [fst snd map] in *. destruct IH as [Hr He].
    split; [ rewrite Hr; reflexivity | exact He ].
Qed.

Lemma advance_same_x g g' s s' :
  same_x_slopes g g' -> same_x_span s s' ->
  same_x_span (advance g s) (advance g' s').
Proof.
  intros [Gl Gr] [Ss Se]. unfold same_x_span, advance. cbn [sdx edx].
  rewrite Gl, Gr, Ss, Se. split; reflexivity.
Qed.

Lemma yloop_pixels fuel :
  forall xfuel y hi g g' s s',
    same_x_slopes g g' -> same_x_span s s' ->
    map (map pixel) (fst (yloop xfuel fuel y hi g s))
    = map (map pixel) (fst (yloop xfuel fuel y hi g' s')) /\
    match snd (yloop xfuel fuel y hi g s),
          snd (yloop xfuel fuel y hi g' s') with
    | Finished r, Finished r' => same_x_span r r'
    | Stopped w, Stopped w' => w = w'
    | _, _ => False
    end.
Proof.
  induction fuel as [ | k IH ]; intros xfuel y hi g g' s s' Hg Hs;
    cbn [yloop].
  - split; reflexivity.
  - destruct (y <=? hi); [ | split; [ reflexivity | exact Hs ] ].
    rewrite !LoopFacts.scanline_xloop.
    destruct Hs as [Ss Se]. rewrite <- Ss, <- Se.
    destruct (xloop_pixels xfuel y (F32.to_int (sdx s)) (edx s)
                (sdu s) (sdv s) (fst (deltas s)) (snd (deltas s))
                (sdu s') (sdv s') (fst (deltas s')) (snd (deltas s')))
      as [Hr He].
    destruct (xloop xfuel y _ (edx s) (sdu s) _ _ _) as [row r].
    destruct (xloop xfuel y _ (edx s) (sdu s') _ _ _) as [row' r'].
    cbn [fst snd] in Hr, He. subst r'.
    destruct r as [ [] | w ].
    + specialize (IH xfuel (Int.incr y) hi g g' (advance g s) (advance g' s')
                     Hg (advance_same_x g g' s s' Hg (conj Ss Se))).
      destruct (yloop xfuel k (Int.incr y) hi g (advance g s)) as [rows e].
      destruct (yloop xfuel k (Int.incr y) hi g' (advance g' s'))
        as [rows' e'].
      cbn [fst snd map] in *. destruct IH as [Hrows Hend].
      split; [ rewrite Hr, Hrows; reflexivity | exact Hend ].
    + cbn [fst snd map]. split; [ rewrite Hr; reflexivity | reflexivity ].
Qed.

Lemma multiSwap_geometry t t' :
  geometry t = geometry t' -> geometry (multiSwap t) = geometry (multiSwap t').
Proof.
  destruct t as [a0 b0 a1 b1 a2 b2 p0 q0 p1 q1 p2 q2].
  destruct t' as [a0' b0' a1' b1' a2' b2' p0' q0' p1' q1' p2' q2'].
  unfold geometry. cbn [x0 y0 x1 y1 x2 y2]. intros E.
  injection E as -> -> -> -> -> ->.
  unfold multiSwap, swap10. cbn [x0 y0 x1 y1 x2 y2 u0 v0 u1 v1 u2 v2].
  destruct (b1' <? b0');
    unfold swap20, swapInt, swapFloat32;
    cbn [x0 y0 x1 y1 x2 y2 u0 v0 u1 v1 u2 v2];
    match goal with |- context [?a <? ?b] => destruct (a <? b) end;
    unfold swap21, swapInt, swapFloat32;
    cbn [x0 y0 x1 y1 x2 y2 u0 v0 u1 v1 u2 v2];
    match goal with |- context [?a <? ?b] => destruct (a <? b) end;
    reflexivity.
Qed.

Lemma rasterize_sorted_pixels fuel t t' :
  geometry t = geometry t' ->
  pixels_of_run (rasterize_sorted fuel t)
  = pixels_of_run (rasterize_sorted fuel t').
Proof.
  unfold geometry. intros E.
  injection E as E0 F0 E1 F1 E2 F2.
  unfold rasterize_sorted, edge1, edge2.
  rewrite !LoopFacts.guarded_div_edge_over.
  set (e1 := over (raw_edge1 t) (Int.sub (y2 t) (y0 t))).
  set (e2 := over (raw_edge2 t) (Int.sub (y1 t) (y0 t))).
  set (e1' := over (raw_edge1 t') (Int.sub (y2 t') (y0 t'))).
  set (e2' := over (raw_edge2 t') (Int.sub (y1 t') (y0 t'))).
  assert (D1 : dxdy e1 = dxdy e1').
  { unfold e1, e1', over, raw_edge1. rewrite E0, E2, F0, F2.
    destruct (Int.sub (y2 t') (y0 t') =? 0); reflexivity. }
  assert (D2 : dxdy e2 = dxdy e2').
  { unfold e2, e2', over, raw_edge2. rewrite E0, E1, F0, F1.
    destruct (Int.sub (y1 t') (y0 t') =? 0); reflexivity. }
  assert (Hg : same_x_slopes (classify e1 e2) (classify e1' e2')).
  { unfold same_x_slopes, classify. rewrite D1, D2.
    destruct (F32.ltb (dxdy e1') (dxdy e2')); cbn [dxldy dxrdy];
      split; congruence. }
  assert (Hs : same_x_span (initial_span t) (initial_span t')).
  { unfold same_x_span, initial_span. cbn [sdx edx]. rewrite E0.
    split; reflexivity. }
  rewrite F0, F1, F2.
  destruct (yloop_pixels fuel fuel (y0 t') (y2 t') _ _ _ _ Hg Hs)
    as [Hrows Hend].
  destruct (yloop fuel fuel (y0 t') (y2 t') (classify e1 e2)
                  (initial_span t)) as [rows [s1 | w]];
    destruct (yloop fuel fuel (y0 t') (y2 t') (classify e1' e2')
                    (initial_span t')) as [rows' [s1' | w']];
    cbn [fst snd] in Hrows, Hend; try contradiction.
  2: { subst w'. unfold pixels_of_run.
       cbn [top_rows bottom_rows outcome map]. rewrite Hrows. reflexivity. }
  unfold bottom_setup, edge21.
  rewrite !LoopFacts.guarded_div_edge_over. cbn [bind].
  rewrite D1, D2.
  set (e := over (raw_edge21 t) (Int.sub (y1 t) (y2 t))).
  set (e' := over (raw_edge21 t') (Int.sub (y1 t') (y2 t'))).
  assert (D : dxdy e = dxdy e').
  { unfold e, e', over, raw_edge21. rewrite E1, E2, F1, F2.
    destruct (Int.sub (y1 t') (y2 t') =? 0); reflexivity. }
  destruct Hg as [Gl Gr]. destruct Hend as [Ss Se].
  destruct (F32.ltb (dxdy e1') (dxdy e2')).
  - match goal with
    | |- context [yloop fuel fuel ?y ?hi ?g ?s] =>
        match goal with
        | |- context [yloop fuel fuel y hi ?g' ?s'] =>
            lazymatch g' with
            | g => fail
            | _ =>
                destruct (yloop_pixels fuel fuel y hi g g' s s')
                  as [Hrows2 Hend2];
                [ split; cbn [dxldy dxrdy]; congruence
                | split; cbn [sdx edx]; congruence | ];
                destruct (yloop fuel fuel y hi g s) as [r2 [z | w]];
                destruct (yloop fuel fuel y hi g' s') as [r2' [z' | w']]
            end
        end
    end; cbn [fst snd] in Hrows2, Hend2; try contradiction;
      unfold pixels_of_run; cbn [top_rows bottom_rows outcome];
      rewrite Hrows, Hrows2; try reflexivity.
    subst w'. reflexivity.
  - match goal with
    | |- context [yloop fuel fuel ?y ?hi ?g ?s] =>
        match goal with
        | |- context [yloop fuel fuel y hi ?g' ?s'] =>
            lazymatch g' with
            | g => fail
            | _ =>
                destruct (yloop_pixels fuel fuel y hi g g' s s')
                  as [Hrows2 Hend2];
                [ split; cbn [dxldy dxrdy]; congruence
                | split; cbn [sdx edx]; congruence | ];
                destruct (yloop fuel fuel y hi g s) as [r2 [z | w]];
                destruct (yloop fuel fuel y hi g' s') as [r2' [z' | w']]
            end
        end
    end; cbn [fst snd] in Hrows2, Hend2; try contradiction;
      unfold pixels_of_run; cbn [top_rows bottom_rows outcome];
      rewrite Hrows, Hrows2; try reflexivity.
    subst w'. reflexivity.
Qed.

(** X12.  The texture coordinates never decide which pixels are shaded,
    nor whether the call ends: two calls whose vertices have the same
    screen coordinates invoke the shader at the same pixels, row by row and
    in the same order, and end in the same way, whatever [u] and [v] are
    (NaN and infinities included). *)
Theorem Rasterize_pixels_independent_of_uv (fuel : nat) (t t' : verts) :
  geometry t = geometry t' ->
  pixels_of_run (Rasterize fuel t) = pixels_of_run (Rasterize fuel t').
Proof.
  intros E. unfold Rasterize.
  apply rasterize_sorted_pixels, multiSwap_geometry, E.
Qed.

Lemma Rasterize_pixels_independent_of_uv_witness :
  pixels_of_run (Rasterize 32 wedge_triangle)
  = pixels_of_run
      (Rasterize 32 (Verts 0 0 16 8 16 4 S754_nan S754_nan
                           (S754_infinity false) S754_nan
                           (S754_infinity true) F32.zero)).
Proof.
  apply (Rasterize_pixels_independent_of_uv 32 wedge_triangle).
  vm_compute. reflexivity.
Defined.

(** * A triangle collapsed to a vertical segment *)

Lemma binary_round_aux_proper s m e l :
  0 < m -> SpecFloat.emin F32.prec F32.emax <= e ->
  proper_divisor (binary_round_aux F32.prec F32.emax s m e l) = true.
Proof.
  intros Hm He. unfold binary_round_aux.
  pose proof (F32Facts.shr_fexp_pos m e l Hm He) as [H1 H1e].
  destruct (shr_fexp F32.prec F32.emax m e l) as [mrs' e'].
  cbn [fst snd] in H1, H1e.
  pose proof (F32Facts.round_nearest_even_ge (shr_m mrs')
                (loc_of_shr_record mrs')) as Hr.
  match goal with
  | |- context [shr_fexp F32.prec F32.emax ?a ?b ?c] =>
      pose proof (F32Facts.shr_fexp_pos a b c ltac:(lia) H1e) as [H2 _];
      destruct (shr_fexp F32.prec F32.emax a b c) as [mrs'' e'']
  end.
  cbn [fst] in H2.
  destruct (shr_m mrs'') as [ | q | q ]; try lia.
  destruct (e'' <=? F32.emax - F32.prec); reflexivity.
Qed.

Lemma of_int_proper n : n <> 0 -> proper_divisor (F32.of_int n) = true.
Proof.
  intros Hn. unfold F32.of_int, F32.lit, binary_normalize, binary_round.
  destruct n as [ | p | p ]; [ contradiction | | ].
  - pose proof (F32Facts.shl_align_emin p 0
                  (fexp F32.prec F32.emax (Zpos (digits2_pos p) + 0))
                  ltac:(unfold SpecFloat.emin, F32.prec, F32.emax; lia)
                  (F32Facts.fexp_ge_emin _)) as He.
    destruct (shl_align p 0 _) as [mz ez]. cbn [snd] in He.
    apply binary_round_aux_proper; [ lia | exact He ].
  - pose proof (F32Facts.shl_align_emin p 0
                  (fexp F32.prec F32.emax (Zpos (digits2_pos p) + 0))
                  ltac:(unfold SpecFloat.emin, F32.prec, F32.emax; lia)
                  (F32Facts.fexp_ge_emin _)) as He.
    destruct (shl_align p 0 _) as [mz ez]. cbn [snd] in He.
    apply binary_round_aux_proper; [ lia | exact He ].
Qed.

Lemma div_zero_proper z f :
  F32.is_zero z = true -> proper_divisor f = true ->
  F32.is_zero (F32.div z f) = true.
Proof.
  destruct z as [sz | sz | | sz mz ez]; try discriminate.
  destruct f as [sf | sf | | sf mf ef]; try discriminate; reflexivity.
Qed.

Lemma add_of_int_still c z :
  F32.is_zero z = true -> F32.add (F32.of_int c) z = F32.of_int c.
Proof.
  destruct z as [sz | sz | | sz mz ez]; try discriminate. intros _.
  destruct (Z.eq_dec c 0) as [-> | Hc].
  - destruct sz; reflexivity.
  - pose proof (F32Facts.of_int_not_zero c Hc) as Hz.
    destruct (F32.of_int c) as [s | s | | s m e]; cbn in Hz |- *;
      [ discriminate Hz | reflexivity | reflexivity | reflexivity ].
Qed.

Lemma over_still g dy :
  F32.is_zero (dxdy g) = true -> F32.is_zero (dxdy (over g dy)) = true.
Proof.
  intros Hg. unfold over.
  destruct (Z.eqb_spec dy 0) as [ | Hdy ]; [ exact Hg | ].
  cbn [dxdy]. apply div_zero_proper; [ exact Hg | ].
  apply of_int_proper. exact Hdy.
Qed.

Lemma classify_still e1 e2 :
  F32.is_zero (dxdy e1) = true -> F32.is_zero (dxdy e2) = true ->
  still (classify e1 e2).
Proof.
  intros H1 H2. unfold still, classify.
  destruct (F32.ltb (dxdy e1) (dxdy e2)); cbn [dxldy dxrdy]; auto.
Qed.

Lemma advance_in_column c g s :
  still g -> in_column c s -> in_column c (advance g s).
Proof.
  intros [Gl Gr] [Ss Se]. unfold in_column, advance. cbn [sdx edx].
  rewrite Ss, Se, !add_of_int_still by assumption. split; reflexivity.
Qed.

Lemma yloop_in_column c fuel :
  forall xfuel y hi g s,
    Int.min_int <= y -> hi < Int.max_int -> still g -> in_column c s ->
    single_pixel_rows (F32.to_int (F32.of_int c))
                      (fst (yloop (S (S xfuel)) fuel y hi g s)) /\
    (forall s', snd (yloop (S (S xfuel)) fuel y hi g s) = Finished s' ->
                in_column c s').
Proof.
  induction fuel as [ | k IH ]; intros xfuel y hi g s Hy Hhi Hg Hs;
    cbn [yloop].
  - split; [ constructor | cbn; discriminate ].
  - destruct (Z.leb_spec y hi).
    2: { split; [ constructor | ].
         cbn [snd]. intros s' E. injection E as <-. exact Hs. }
    rewrite LoopFacts.scanline_xloop.
    destruct Hs as [Ss Se]. rewrite Ss, Se.
    rewrite LoopFacts.xloop_single by apply F32Facts.of_int_wf.
    rewrite IntFacts.incr_below_max by lia.
    destruct (IH xfuel (y + 1) hi g (advance g s) ltac:(lia) Hhi Hg
                 (advance_in_column c g s Hg (conj Ss Se))) as [Hrows Hend].
    destruct (yloop (S (S xfuel)) k (y + 1) hi g (advance g s)) as [rows r].
    cbn [fst snd] in *. split; [ | exact Hend ].
    constructor; [ | exact Hrows ].
    do 3 eexists. reflexivity.
Qed.

Lemma multiSwap_column c t :
  x0 t = c -> x1 t = c -> x2 t = c ->
  x0 (multiSwap t) = c /\ x1 (multiSwap t) = c /\ x2 (multiSwap t) = c.
Proof.
  destruct t as [a0 b0 a1 b1 a2 b2 p0 q0 p1 q1 p2 q2].
  cbn [x0 x1 x2]. intros -> -> ->.
  unfold multiSwap, swap10. cbn [x0 y0 x1 y1 x2 y2 u0 v0 u1 v1 u2 v2].
  destruct (b1 <? b0);
    unfold swap20, swapInt, swapFloat32;
    cbn [x0 y0 x1 y1 x2 y2 u0 v0 u1 v1 u2 v2];
    match goal with |- context [?a <? ?b] => destruct (a <? b) end;
    unfold swap21, swapInt, swapFloat32;
    cbn [x0 y0 x1 y1 x2 y2 u0 v0 u1 v1 u2 v2];
    match goal with |- context [?a <? ?b] => destruct (a <? b) end;
    cbn [x0 x1 x2]; repeat split.
Qed.

Lemma rasterize_sorted_column c fuel t :
  x0 t = c -> x1 t = c -> x2 t = c ->
  ys_below_max t -> y0 t <= y2 t <= y1 t ->
  single_pixel_rows (F32.to_int (F32.of_int c))
                    (top_rows (rasterize_sorted (S (S fuel)) t)
                     ++ bottom_rows (rasterize_sorted (S (S fuel)) t)).
Proof.
  intros X0 X1 X2 (H0 & H1 & H2) Hs. unfold y_below_max in *.
  unfold rasterize_sorted, edge1, edge2.
  rewrite !LoopFacts.guarded_div_edge_over.
  set (e1 := over (raw_edge1 t) (Int.sub (y2 t) (y0 t))).
  set (e2 := over (raw_edge2 t) (Int.sub (y1 t) (y0 t))).
  assert (Z1 : F32.is_zero (dxdy e1) = true).
  { apply over_still. unfold raw_edge1. cbn [dxdy].
    rewrite X0, X2, Int_sub_diag. reflexivity. }
  assert (Z2 : F32.is_zero (dxdy e2) = true).
  { apply over_still. unfold raw_edge2. cbn [dxdy].
    rewrite X0, X1, Int_sub_diag. reflexivity. }
  pose proof (classify_still e1 e2 Z1 Z2) as Hg.
  assert (Hc : in_column c (initial_span t)).
  { unfold in_column, initial_span. cbn [sdx edx]. rewrite X0.
    split; reflexivity. }
  destruct (yloop_in_column c (S (S fuel)) fuel (y0 t) (y2 t)
              (classify e1 e2) (initial_span t) ltac:(lia) ltac:(lia) Hg Hc)
    as [Hrows Hend].
  destruct (yloop (S (S fuel)) (S (S fuel)) (y0 t) (y2 t) (classify e1 e2)
                  (initial_span t)) as [rows [s1 | w]];
    cbn [fst snd] in Hrows, Hend.
  2: { cbn [top_rows bottom_rows]. rewrite app_nil_r. exact Hrows. }
  specialize (Hend s1 eq_refl). destruct Hend as [Ss Se].
  unfold bottom_setup, edge21. rewrite LoopFacts.guarded_div_edge_over.
  cbn [bind].
  set (e := over (raw_edge21 t) (Int.sub (y1 t) (y2 t))).
  assert (Z : F32.is_zero (dxdy e) = true).
  { apply over_still. unfold raw_edge21. cbn [dxdy].
    rewrite X1, X2, Int_sub_diag. reflexivity. }
  destruct Hg as [Gl Gr].
  destruct (F32.ltb (dxdy e1) (dxdy e2)).
  - match goal with
    | |- context [yloop (S (S fuel)) (S (S fuel)) (y2 t) (y1 t) ?g ?s] =>
        destruct (yloop_in_column c (S (S fuel)) fuel (y2 t) (y1 t) g s
                    ltac:(lia) ltac:(lia)) as [Hrows' _];
        [ split; cbn [dxldy dxrdy]; assumption
        | split; cbn [sdx edx]; [ rewrite X2; reflexivity | exact Se ]
        | destruct (yloop (S (S fuel)) (S (S fuel)) (y2 t) (y1 t) g s)
            as [rows' [s2 | w]] ]
    end; cbn [fst top_rows bottom_rows] in *;
      apply Forall_app; split; assumption.
  - match goal with
    | |- context [yloop (S (S fuel)) (S (S fuel)) (y2 t) (y1 t) ?g ?s] =>
        destruct (yloop_in_column c (S (S fuel)) fuel (y2 t) (y1 t) g s
                    ltac:(lia) ltac:(lia)) as [Hrows' _];
        [ split; cbn [dxldy dxrdy]; assumption
        | split; cbn [sdx edx]; [ exact Ss | rewrite X2; reflexivity ]
        | destruct (yloop (S (S fuel)) (S (S fuel)) (y2 t) (y1 t) g s)
            as [rows' [s2 | w]] ]
    end; cbn [fst top_rows bottom_rows] in *;
      apply Forall_app; split; assumption.
Qed.

(** X13.  A triangle collapsed to a vertical segment, that is, whose three
    vertices have the same [x] and [y] coordinates below the largest
    [int], is shaded as one pixel per row in the column
    [int(float32(x))]: the call finishes after [y1 - y0 + 2] rows of one
    invocation each, the scanline of the middle vertex being shaded by
    both halves. *)
Theorem vertical_segment_is_one_pixel_wide (c : Z) (t : verts) :
  x0 t = c -> x1 t = c -> x2 t = c -> ys_below_max t ->
  exists n0 : nat,
    forall fuel, (n0 <= fuel)%nat ->
      outcome (Rasterize fuel t) = Finished tt /\
      single_pixel_rows (F32.to_int (F32.of_int c))
                        (top_rows (Rasterize fuel t)
                         ++ bottom_rows (Rasterize fuel t)) /\
      Z.of_nat (length (top_rows (Rasterize fuel t)
                        ++ bottom_rows (Rasterize fuel t)))
      = y1 (multiSwap t) - y0 (multiSwap t) + 2.
Proof.
  intros X0 X1 X2 Hy. exists (Z.to_nat (2 ^ 64)). intros fuel Hf.
  assert (Hf' : 2 ^ 64 <= Z.of_nat fuel) by lia.
  destruct (multiSwap_column c t X0 X1 X2) as (M0 & M1 & M2).
  pose proof (multiSwap_ys_below_max t Hy) as Hy'.
  pose proof (multiSwap_sorted t) as Hs.
  pose proof (rasterize_sorted_finishes fuel (multiSwap t) Hy' Hs Hf')
    as (A & B & C & _).
  unfold Rasterize. split; [ exact A | split ].
  - destruct fuel as [ | [ | fuel ] ]; [ cbn in Hf'; lia | cbn in Hf'; lia | ].
    apply rasterize_sorted_column; assumption.
  - rewrite length_app. lia.
Qed.

Lemma vertical_segment_is_one_pixel_wide_witness :
  exists n0 : nat,
    forall fuel, (n0 <= fuel)%nat ->
      outcome (Rasterize fuel (triangle 3 0 3 9 3 4 0 0 1 0 0 1))
      = Finished tt /\
      single_pixel_rows
        (F32.to_int (F32.of_int 3))
        (top_rows (Rasterize fuel (triangle 3 0 3 9 3 4 0 0 1 0 0 1))
         ++ bottom_rows (Rasterize fuel (triangle 3 0 3 9 3 4 0 0 1 0 0 1))) /\
      Z.of_nat
        (length
           (top_rows (Rasterize fuel (triangle 3 0 3 9 3 4 0 0 1 0 0 1))
            ++ bottom_rows
                 (Rasterize fuel (triangle 3 0 3 9 3 4 0 0 1 0 0 1))))
      = y1 (multiSwap (triangle 3 0 3 9 3 4 0 0 1 0 0 1))
        - y0 (multiSwap (triangle 3 0 3 9 3 4 0 0 1 0 0 1)) + 2.
Proof.
  apply (vertical_segment_is_one_pixel_wide
           3 (triangle 3 0 3 9 3 4 0 0 1 0 0 1));
    try reflexivity.
  unfold ys_below_max, y_below_max.
  repeat split; vm_compute; congruence.
Defined.
